(** * lullaby/util/mesh.h: the tessellated-quad vertex generator

    A shallow embedding of [CalculateTesselatedQuadVertices] and of the
    [CornerMask] bit set of [src/lullaby/util/mesh.h].

    - C++ [float] values live in a type [F] with the operations the function
      uses (class [Scalar]), and the function is translated once, for any such
      [F].  The instance of the code is [Binary32.ops], the IEEE 754 single
      format with round-to-nearest-even on [spec_float] (executable; [sinf]
      and [cosf] belong to the C library and are parameters).  Results on the
      order, the number and the formulas of the vertices hold for every [F];
      results that need arithmetic are about binary32.
    - C++ [int] values are integers in [Z].  The loops and the layout are
      given on these integers ([fill], [CalculateTesselatedQuadVertices]).
      The vertex count of lines 141-150 is also computed in 32-bit
      wrap-around arithmetic ([Int32], [num_verts_int]), and
      [CalculateTesselatedQuadVertices_int32] is the function with the array
      allocated from that count: it returns what
      [CalculateTesselatedQuadVertices] returns whenever the count fits into
      an [int], and otherwise throws or writes outside the array.
    - [std::vector<Vertex> vertices(num_verts)] with the running [index] is a
      list updated in place together with a counter (record [Buffer]). *)

From Stdlib Require Import ZArith Bool List String Lia.
From Stdlib Require Import Floats.SpecFloat.
From stdpp Require Import base list list_numbers.

Local Open Scope Z_scope.

(** ** Floating-point interface *)

Class Scalar (F : Type) := {
  of_int : Z -> F;            (* static_cast<float>(int); the literals 0.f, 1.0f, 2.0f *)
  fadd : F -> F -> F;
  fsub : F -> F -> F;
  fmul : F -> F -> F;
  fdiv : F -> F -> F;
  fneg : F -> F;
  flt : F -> F -> bool;       (* operator< *)
  fabsf : F -> F;
  sinf : F -> F;
  cosf : F -> F;
  M_PI : F;                   (* static_cast<float>(M_PI) *)
}.

Declare Scope float_scope.
Delimit Scope float_scope with flt.
Infix "+" := fadd : float_scope.
Infix "-" := fsub : float_scope.
Infix "*" := fmul : float_scope.
Infix "/" := fdiv : float_scope.
Notation "- x" := (fneg x) : float_scope.
Infix "<?" := flt : float_scope.

(** ** 32-bit [int]

    Two's complement values in [[-2^31, 2^31)].  An arithmetic result outside
    this range is undefined behaviour in C++; the operations below give the
    wrapped value, which is what the usual compilers produce. *)

Module Int32.
Definition min_int : Z := - 2 ^ 31.
Definition max_int : Z := 2 ^ 31 - 1.
Definition in_range (n : Z) : Prop := min_int <= n <= max_int.
Definition wrap (n : Z) : Z := (n + 2 ^ 31) mod 2 ^ 32 - 2 ^ 31.
Definition add (a b : Z) : Z := wrap (a + b).
Definition sub (a b : Z) : Z := wrap (a - b).
Definition mul (a b : Z) : Z := wrap (a * b).
End Int32.

(** ** CornerMask (mesh.h lines 32-48)

    A scoped enumeration without an explicit underlying type has the
    underlying type [int]: a [CornerMask] value is an [int]. *)

Module CornerMask.
Definition t := Z.
Definition kNone : t := 0.
Definition kTopRight : t := Z.shiftl 1 0.
Definition kBottomRight : t := Z.shiftl 1 1.
Definition kBottomLeft : t := Z.shiftl 1 2.
Definition kTopLeft : t := Z.shiftl 1 3.
(* static_cast<uint32_t>(a) *)
Definition to_uint32 (a : t) : Z := a mod 2 ^ 32.
(* static_cast<CornerMask>(u) for a uint32_t u *)
Definition of_uint32 (u : Z) : t := Int32.wrap u.
(* operator| and operator&: both arguments are cast to uint32_t, the result
   is cast back to CornerMask *)
Definition or (a b : t) : t := of_uint32 (Z.lor (to_uint32 a) (to_uint32 b)).
Definition and (a b : t) : t := of_uint32 (Z.land (to_uint32 a) (to_uint32 b)).
Definition kAll : t := Z.lor (Z.lor (Z.lor kTopRight kBottomRight) kBottomLeft) kTopLeft.

(** Not in the source: [kAll] with the bit of one corner cleared, and the
    corners in the order in which the fan loop writes them. *)
Definition all_but (corner : t) : t := Z.ldiff kAll corner.
Definition emission_order : list t := [kBottomLeft; kTopLeft; kBottomRight; kTopRight].
End CornerMask.

(** ** Vectors and vertices *)

Record vec2 (F : Type) := Vec2 { vx : F; vy : F }.
Arguments Vec2 {F} _ _.
Arguments vx {F} _.
Arguments vy {F} _.

Record vec3 (F : Type) := Vec3 { px : F; py : F; pz : F }.
Arguments Vec3 {F} _ _ _.
Arguments px {F} _.
Arguments py {F} _.
Arguments pz {F} _.

(** Modelled from the spec: the [Vertex] type and its writers [SetPosition]
    and [SetUv0] are declared outside mesh.h.  The spec asks of a vertex only
    that a 3D position and a 2D texture coordinate can be written to it, so a
    vertex is the record of these two fields. *)
Record Vertex (F : Type) := MkVertex { pos : vec3 F; uv0 : vec2 F }.
Arguments MkVertex {F} _ _.
Arguments pos {F} _.
Arguments uv0 {F} _.

Section Generator.
Context {F : Type} `{Scalar F}.
Local Open Scope float_scope.

Definition f0 : F := of_int 0.
Definition f1 : F := of_int 1.
Definition f2 : F := of_int 2.

(** [std::min(a, b)] is [(b < a) ? b : a]; [std::max(a, b)] is [(a < b) ? b : a]. *)
Definition std_min (a b : F) : F := if b <? a then b else a.
Definition std_max (a b : F) : F := if a <? b then b else a.

(** mathfu::vec2 arithmetic used by the fan code. *)
Definition vec2_add (a b : vec2 F) : vec2 F := Vec2 (vx a + vx b) (vy a + vy b).
Definition vec2_mul (a b : vec2 F) : vec2 F := Vec2 (vx a * vx b) (vy a * vy b).
Definition vec2_scale (a : vec2 F) (s : F) : vec2 F := Vec2 (vx a * s) (vy a * s).

Definition SetPosition (v : Vertex F) (x y z : F) : Vertex F :=
  MkVertex (Vec3 x y z) (uv0 v).
Definition SetUv0 (v : Vertex F) (u w : F) : Vertex F :=
  MkVertex (pos v) (Vec2 u w).

(** A value-initialised vertex, as [std::vector<Vertex>(n)] creates it. *)
Definition Vertex_init : Vertex F := MkVertex (Vec3 f0 f0 f0) (Vec2 f0 f0).

(** The output array with the running [index]. *)
Record Buffer := MkBuffer { vertices : list (Vertex F); index : nat }.

(** [SetPosition(&vertices[index], x, y, z); SetUv0(&vertices[index], u, v);
    ++index;]  An [index] past the end is undefined behaviour in C++; here it
    leaves the list as it is, and [fill_layout] shows that it does not
    happen. *)
Definition put (x y z u v : F) (b : Buffer) : Buffer :=
  MkBuffer
    (alter (fun w => SetUv0 (SetPosition w x y z) u v) (index b) (vertices b))
    (S (index b)).

(** [for (int i = 0; i < n; ++i) body(i)] *)
Definition for_int (n : Z) (body : Z -> Buffer -> Buffer) (b : Buffer) : Buffer :=
  fold_left (fun acc i => body i acc) (seqZ 0 n) b.

(** *** Body of the function after validation (mesh.h lines 126-289)

    [corner_radius] is here the clamped radius of line 77. *)
Section Body.
Variables (size_x size_y : F) (num_verts_x num_verts_y : Z).
Variables (corner_radius : F) (corner_verts : Z) (corner_mask : CornerMask.t).

Definition half_size_x : F := size_x / f2.
Definition half_size_y : F := size_y / f2.
Definition interior_size_x : F := size_x - (f2 * corner_radius).
Definition interior_size_y : F := size_y - (f2 * corner_radius).
Definition half_interior_size_x : F := interior_size_x / f2.
Definition half_interior_size_y : F := interior_size_y / f2.
Definition u_texture_inset : F := corner_radius / size_x.
Definition u_texture_range : F := f1 - (f2 * u_texture_inset).
Definition v_texture_inset : F := corner_radius / size_y.
Definition v_texture_range : F := f1 - (f2 * v_texture_inset).
Definition z : F := f0.
Definition num_interior_verts_x : Z :=
  if (0 <? corner_verts)%Z then (num_verts_x - 2)%Z else num_verts_x.
Definition num_interior_verts_y : Z :=
  if (0 <? corner_verts)%Z then (num_verts_y - 2)%Z else num_verts_y.
Definition num_corner_verts : Z :=
  if (0 <? corner_verts)%Z
  then ((4 * corner_verts) + (2 * num_interior_verts_x)
        + (2 * num_interior_verts_y))%Z
  else 0%Z.
(* const size_t num_verts, on the integers; [num_verts_int] below is the same
   expression in 32-bit arithmetic *)
Definition num_verts : nat :=
  Z.to_nat ((num_interior_verts_x * num_interior_verts_y) + num_corner_verts).

(** The per-row and per-column quantities of the three grid loops. *)
Definition y_fraction (y : Z) : F := of_int y / of_int (num_interior_verts_y - 1).
Definition y_val (y : Z) : F := (y_fraction y * interior_size_y) - half_interior_size_y.
Definition v_val (y : Z) : F := v_texture_inset + ((f1 - y_fraction y) * v_texture_range).
Definition x_fraction (x : Z) : F := of_int x / of_int (num_interior_verts_x - 1).
Definition x_val (x : Z) : F := (x_fraction x * interior_size_x) - half_interior_size_x.
Definition u_val (x : Z) : F := u_texture_inset + (x_fraction x * u_texture_range).

(** Lines 154-166: the left tab. *)
Definition left_tab : Buffer -> Buffer :=
  for_int num_interior_verts_y
    (fun y => put (- half_size_x) (y_val y) z f0 (v_val y)).

(** Lines 170-204, one iteration of the outer loop: a column of the
    interior rectangle with its lower and upper tab vertex. *)
Definition column (x : Z) (b : Buffer) : Buffer :=
  let b := if (0 <? corner_verts)%Z
           then put (x_val x) (- half_size_y) z (u_val x) f1 b else b in
  let b := for_int num_interior_verts_y
             (fun y => put (x_val x) (y_val y) z (u_val x) (v_val y)) b in
  if (0 <? corner_verts)%Z
  then put (x_val x) half_size_y z (u_val x) f0 b else b.

(** Lines 207-216: the right tab. *)
Definition right_tab : Buffer -> Buffer :=
  for_int num_interior_verts_y
    (fun y => put half_size_x (y_val y) f0 f1 (v_val y)).

(** Lines 219-229: anchors of the four fans. *)
Definition lower_left_xy : vec2 F := Vec2 (- half_interior_size_x) (- half_interior_size_y).
Definition upper_left_xy : vec2 F := Vec2 (- half_interior_size_x) half_interior_size_y.
Definition lower_right_xy : vec2 F := Vec2 half_interior_size_x (- half_interior_size_y).
Definition upper_right_xy : vec2 F := Vec2 half_interior_size_x half_interior_size_y.
Definition u_texture_far_inset : F := f1 - u_texture_inset.
Definition v_texture_far_inset : F := f1 - v_texture_inset.
Definition lower_left_uv : vec2 F := Vec2 u_texture_inset v_texture_far_inset.
Definition upper_left_uv : vec2 F := Vec2 u_texture_inset v_texture_inset.
Definition lower_right_uv : vec2 F := Vec2 u_texture_far_inset v_texture_far_inset.
Definition upper_right_uv : vec2 F := Vec2 u_texture_far_inset v_texture_inset.
Definition uv_scale : vec2 F := Vec2 (f1 / size_x) ((- f1) / size_y).

(** Lines 231-236: the lambda [unround_corner]. *)
Definition unround_corner (offset : vec2 F) : vec2 F :=
  let absx := fabsf (vx offset) in
  let absy := fabsf (vy offset) in
  let scale := corner_radius / std_max absx absy in
  vec2_scale offset scale.

(** Lines 239-243. *)
Definition theta (i : Z) : F :=
  (of_int (i + 1) / of_int corner_verts) * (M_PI / f2).
Definition r_sin_theta (i : Z) : F := corner_radius * sinf (theta i).
Definition r_cos_theta (i : Z) : F := corner_radius * cosf (theta i).

(** [(corner_mask & corner) == CornerMask::kNone] *)
Definition corner_off (corner : CornerMask.t) : bool :=
  (CornerMask.and corner_mask corner =? CornerMask.kNone)%Z.

Definition ll_offset (i : Z) : vec2 F :=
  let o := Vec2 (- r_sin_theta i) (- r_cos_theta i) in
  if corner_off CornerMask.kBottomLeft then unround_corner o else o.
Definition ul_offset (i : Z) : vec2 F :=
  let o := Vec2 (- r_cos_theta i) (r_sin_theta i) in
  if corner_off CornerMask.kTopLeft then unround_corner o else o.
Definition lr_offset (i : Z) : vec2 F :=
  let o := Vec2 (r_cos_theta i) (- r_sin_theta i) in
  if corner_off CornerMask.kBottomRight then unround_corner o else o.
Definition ur_offset (i : Z) : vec2 F :=
  let o := Vec2 (r_sin_theta i) (r_cos_theta i) in
  if corner_off CornerMask.kTopRight then unround_corner o else o.

(** The four statements shared by every corner, e.g. lines 249-253:
    [xy = anchor_xy + offset; uv = anchor_uv + (offset * uv_scale);
     SetPosition(.., xy.x, xy.y, z); SetUv0(.., uv); ++index]. *)
Definition put_fan (anchor_xy anchor_uv offset : vec2 F) : Buffer -> Buffer :=
  let xy := vec2_add anchor_xy offset in
  let uv := vec2_add anchor_uv (vec2_mul offset uv_scale) in
  put (vx xy) (vy xy) z (vx uv) (vy uv).

(** Lines 238-284, one iteration. *)
Definition fan_step (i : Z) (b : Buffer) : Buffer :=
  let b := put_fan lower_left_xy lower_left_uv (ll_offset i) b in
  let b := put_fan upper_left_xy upper_left_uv (ul_offset i) b in
  let b := put_fan lower_right_xy lower_right_uv (lr_offset i) b in
  put_fan upper_right_xy upper_right_uv (ur_offset i) b.

(** Lines 151-285. *)
Definition fill : Buffer :=
  let b := MkBuffer (replicate num_verts Vertex_init) 0 in
  let b := if (0 <? corner_verts)%Z then left_tab b else b in
  let b := for_int num_interior_verts_x column b in
  if (0 <? corner_verts)%Z
  then for_int corner_verts fan_step (right_tab b)
  else b.

(** *** The layout written by [fill], as a list

    Not part of the source: the vertices in the order in which the loops
    above write them, used to state what [fill] leaves in the array. *)
Definition vertex_at (x y zz u v : F) : Vertex F :=
  MkVertex (Vec3 x y zz) (Vec2 u v).

Definition left_tab_vertices : list (Vertex F) :=
  (fun y => vertex_at (- half_size_x) (y_val y) z f0 (v_val y))
    <$> seqZ 0 num_interior_verts_y.

Definition lower_tab_vertex (x : Z) : Vertex F :=
  vertex_at (x_val x) (- half_size_y) z (u_val x) f1.
Definition interior_vertex (x y : Z) : Vertex F :=
  vertex_at (x_val x) (y_val y) z (u_val x) (v_val y).
Definition upper_tab_vertex (x : Z) : Vertex F :=
  vertex_at (x_val x) half_size_y z (u_val x) f0.

Definition column_vertices (x : Z) : list (Vertex F) :=
  (if (0 <? corner_verts)%Z then [lower_tab_vertex x] else [])
  ++ (interior_vertex x <$> seqZ 0 num_interior_verts_y)
  ++ (if (0 <? corner_verts)%Z then [upper_tab_vertex x] else []).

Definition right_tab_vertices : list (Vertex F) :=
  (fun y => vertex_at half_size_x (y_val y) f0 f1 (v_val y))
    <$> seqZ 0 num_interior_verts_y.

Definition fan_vertex (anchor_xy anchor_uv offset : vec2 F) : Vertex F :=
  let xy := vec2_add anchor_xy offset in
  let uv := vec2_add anchor_uv (vec2_mul offset uv_scale) in
  vertex_at (vx xy) (vy xy) z (vx uv) (vy uv).

Definition fan_step_vertices (i : Z) : list (Vertex F) :=
  [ fan_vertex lower_left_xy lower_left_uv (ll_offset i);
    fan_vertex upper_left_xy upper_left_uv (ul_offset i);
    fan_vertex lower_right_xy lower_right_uv (lr_offset i);
    fan_vertex upper_right_xy upper_right_uv (ur_offset i) ].

Definition quad_vertices : list (Vertex F) :=
  (if (0 <? corner_verts)%Z then left_tab_vertices else [])
  ++ (seqZ 0 num_interior_verts_x ≫= column_vertices)
  ++ (if (0 <? corner_verts)%Z
      then right_tab_vertices ++ (seqZ 0 corner_verts ≫= fan_step_vertices)
      else []).

(** Index of the first fan vertex: the tabs and the interior come first. *)
Definition fan_base : nat :=
  Z.to_nat (num_interior_verts_y
            + num_interior_verts_x * (num_interior_verts_y + 2)
            + num_interior_verts_y).
End Body.

(** *** Validation (lines 73-94) and the function itself

    [LOG(DFATAL) << msg; return std::vector<Vertex>();] yields the message
    and the empty vector. *)
Definition check_vertex_counts (num_verts_x num_verts_y corner_verts : Z)
  : option string :=
  if (0 <? corner_verts)%Z then
    if ((num_verts_x <? 4) || (num_verts_y <? 4))%Z
    then Some "Failed to reserve 4 additional vertices."%string
    else None
  else if (corner_verts =? 0)%Z then
    if ((num_verts_x <? 2) || (num_verts_y <? 2))%Z
    then Some "Failed to reserve 2 additional vertices."%string
    else None
  else Some "Must have >= 0 corner vertices."%string.

(** The clamp of line 77. *)
Definition clamp_radius (size_x size_y corner_radius : F) : F :=
  std_min corner_radius (std_min size_x size_y / f2).

Definition CalculateTesselatedQuadVertices_log
    (size_x size_y : F) (num_verts_x num_verts_y : Z)
    (corner_radius : F) (corner_verts : Z) (corner_mask : CornerMask.t)
  : option string * list (Vertex F) :=
  if (size_x <? f0) || (size_y <? f0)
  then (Some "Size of quad has to be >= than 0.0"%string, [])
  else
    let corner_radius := clamp_radius size_x size_y corner_radius in
    match check_vertex_counts num_verts_x num_verts_y corner_verts with
    | Some msg => (Some msg, [])
    | None =>
        (None,
         vertices (fill size_x size_y num_verts_x num_verts_y
                     corner_radius corner_verts corner_mask))
    end.

Definition CalculateTesselatedQuadVertices
    (size_x size_y : F) (num_verts_x num_verts_y : Z)
    (corner_radius : F) (corner_verts : Z) (corner_mask : CornerMask.t)
  : list (Vertex F) :=
  snd (CalculateTesselatedQuadVertices_log size_x size_y num_verts_x
         num_verts_y corner_radius corner_verts corner_mask).

(** The call passes validation: no fatal message is logged. *)
Definition accepted
    (size_x size_y : F) (num_verts_x num_verts_y : Z)
    (corner_radius : F) (corner_verts : Z) (corner_mask : CornerMask.t) : Prop :=
  fst (CalculateTesselatedQuadVertices_log size_x size_y num_verts_x
         num_verts_y corner_radius corner_verts corner_mask) = None.

(** Not in the source: [f] writes the vertices [l] at [index],
    [index + 1], ... and advances [index] past them, provided they fit into the
    array. *)
Definition writes (f : Buffer -> Buffer) (l : list (Vertex F)) : Prop :=
  forall b : Buffer,
    (index b + length l <= length (vertices b))%nat ->
    f b = MkBuffer (take (index b) (vertices b) ++ l
                      ++ drop (index b + length l) (vertices b))
                   (index b + length l).


(** *** The function with the vertex count in [int]

    Lines 137-150 are [int] expressions.  [num_verts_x - 2] cannot leave the
    range of [int] once validation has passed ([num_verts_x >= 4]), and the
    loop counters stay below their bounds; the products and sums of lines
    141-150 can.  [const size_t num_verts = ...] converts the [int] to a
    64-bit [size_t]. *)
Definition num_interior_verts_x_int (num_verts_x corner_verts : Z) : Z :=
  if (0 <? corner_verts)%Z then Int32.sub num_verts_x 2 else num_verts_x.
Definition num_interior_verts_y_int (num_verts_y corner_verts : Z) : Z :=
  if (0 <? corner_verts)%Z then Int32.sub num_verts_y 2 else num_verts_y.
Definition num_corner_verts_int (num_verts_x num_verts_y corner_verts : Z) : Z :=
  if (0 <? corner_verts)%Z
  then Int32.add
         (Int32.add (Int32.mul 4 corner_verts)
            (Int32.mul 2 (num_interior_verts_x_int num_verts_x corner_verts)))
         (Int32.mul 2 (num_interior_verts_y_int num_verts_y corner_verts))
  else 0%Z.
Definition num_verts_int (num_verts_x num_verts_y corner_verts : Z) : Z :=
  Int32.add
    (Int32.mul (num_interior_verts_x_int num_verts_x corner_verts)
       (num_interior_verts_y_int num_verts_y corner_verts))
    (num_corner_verts_int num_verts_x num_verts_y corner_verts).
Definition size_t_of_int (n : Z) : Z := n mod 2 ^ 64.

(** [std::vector<Vertex> vertices(num_verts)] throws [std::length_error]
    when [num_verts] exceeds [max_size()], which is at most [2^63 - 1].
    Running out of memory is not modelled. *)
Definition vector_max_size : Z := 2 ^ 63 - 1.

(** Lines 154-285, started on any array. *)
Definition fill_loops (size_x size_y : F) (num_verts_x num_verts_y : Z)
    (corner_radius : F) (corner_verts : Z) (corner_mask : CornerMask.t)
    (b : Buffer) : Buffer :=
  let b := if (0 <? corner_verts)%Z
           then left_tab size_x size_y num_verts_y corner_radius corner_verts b
           else b in
  let b := for_int (num_interior_verts_x num_verts_x corner_verts)
             (column size_x size_y num_verts_x num_verts_y corner_radius
                corner_verts) b in
  if (0 <? corner_verts)%Z
  then for_int corner_verts
         (fan_step size_x size_y corner_radius corner_verts corner_mask)
         (right_tab size_x size_y num_verts_y corner_radius corner_verts b)
  else b.

(** Lines 151-285 with the array that the [int] count gives. *)
Definition fill_int32 (size_x size_y : F) (num_verts_x num_verts_y : Z)
    (corner_radius : F) (corner_verts : Z) (corner_mask : CornerMask.t)
  : Buffer :=
  fill_loops size_x size_y num_verts_x num_verts_y corner_radius corner_verts
    corner_mask
    (MkBuffer
       (replicate
          (Z.to_nat (size_t_of_int
                       (num_verts_int num_verts_x num_verts_y corner_verts)))
          Vertex_init)
       0).

(** What a call does: it returns (with the message it logged, if any), the
    constructor of the vector throws, or a vertex is written outside the
    array, which is undefined behaviour. *)
Inductive outcome : Type :=
| Returned (log : option string) (vs : list (Vertex F))
| LengthError
| OutOfBounds.

(** [index] counts the writes, and write number [k] goes to slot [k - 1]:
    a write outside the array has happened exactly when the final [index]
    exceeds the length of the array. *)
Definition CalculateTesselatedQuadVertices_int32
    (size_x size_y : F) (num_verts_x num_verts_y : Z)
    (corner_radius : F) (corner_verts : Z) (corner_mask : CornerMask.t)
  : outcome :=
  if (size_x <? f0) || (size_y <? f0)
  then Returned (Some "Size of quad has to be >= than 0.0"%string) []
  else
    let corner_radius := clamp_radius size_x size_y corner_radius in
    match check_vertex_counts num_verts_x num_verts_y corner_verts with
    | Some msg => Returned (Some msg) []
    | None =>
        if (vector_max_size
            <? size_t_of_int (num_verts_int num_verts_x num_verts_y corner_verts))%Z
        then LengthError
        else
          let b := fill_int32 size_x size_y num_verts_x num_verts_y
                     corner_radius corner_verts corner_mask in
          if (index b <=? length (vertices b))%nat
          then Returned None (vertices b)
          else OutOfBounds
    end.

(** Not in the source: the count of lines 141-150 on the integers. *)
Definition exact_count (num_verts_x num_verts_y corner_verts : Z) : Z :=
  (num_interior_verts_x num_verts_x corner_verts
   * num_interior_verts_y num_verts_y corner_verts
   + num_corner_verts num_verts_x num_verts_y corner_verts)%Z.

(** Not in the source: [f] makes [n] writes, that is, it advances [index] by
    [n] and keeps the length of the array, whether the writes fit or not. *)
Definition advances (f : Buffer -> Buffer) (n : nat) : Prop :=
  forall b : Buffer,
    index (f b) = (index b + n)%nat
    /\ length (vertices (f b)) = length (vertices b).

End Generator.

Arguments Returned {F} _ _.
Arguments LengthError {F}.
Arguments OutOfBounds {F}.

(** ** The binary32 instance *)

Module Binary32.
Definition prec : Z := 24.
Definition emax : Z := 128.
Abbreviation float := spec_float.

(* static_cast<float>(M_PI) = 0x40490FDB *)
Definition pi : float := S754_finite false 13176795 (-22).

Definition ops (libm_sinf libm_cosf : float -> float) : Scalar float := {|
  of_int n := binary_normalize prec emax n 0 false;
  fadd := SFadd prec emax;
  fsub := SFsub prec emax;
  fmul := SFmul prec emax;
  fdiv := SFdiv prec emax;
  fneg := SFopp;
  flt := SFltb;
  fabsf := SFabs;
  sinf := libm_sinf;
  cosf := libm_cosf;
  M_PI := pi;
|}.

(** A stand-in for the C library, to run the model on concrete inputs:
    Taylor polynomials evaluated in binary32.  No result below depends on
    this choice. *)
Definition lit (n d : Z) : float :=
  SFdiv prec emax (binary_normalize prec emax n 0 false)
                  (binary_normalize prec emax d 0 false).
Definition poly_sinf (x : float) : float :=
  let x2 := SFmul prec emax x x in
  let t := SFsub prec emax (lit 1 120) (SFmul prec emax x2 (lit 1 5040)) in
  let t := SFsub prec emax (lit 1 6) (SFmul prec emax x2 t) in
  SFmul prec emax x (SFsub prec emax (lit 1 1) (SFmul prec emax x2 t)).
Definition poly_cosf (x : float) : float :=
  let x2 := SFmul prec emax x x in
  let t := SFsub prec emax (lit 1 24) (SFmul prec emax x2 (lit 1 720)) in
  let t := SFsub prec emax (lit 1 2) (SFmul prec emax x2 t) in
  SFsub prec emax (lit 1 1) (SFmul prec emax x2 t).
Definition poly_ops : Scalar float := ops poly_sinf poly_cosf.

Definition nan : float := S754_nan.

(** Equality of floats as values: the two zeros count as one value. *)
Definition same_value (a b : float) : Prop :=
  a = b \/ exists s t, a = S754_zero s /\ b = S754_zero t.



(** [a <= x <= b] as C++ would test it. *)
Definition in_range (a b x : float) : bool := SFleb a x && SFleb x b.

(** [kTopRight | kBottomRight | kBottomLeft]: every corner but the top left. *)
Definition no_top_left : CornerMask.t :=
  CornerMask.or (CornerMask.or CornerMask.kTopRight CornerMask.kBottomRight)
    CornerMask.kBottomLeft.

(** 0.5f *)
Definition half : float := S754_finite false 8388608 (-24).

(** Not in the source: [x] is a number (not NaN) with sign bit [s], and [x]
    is such a number other than a zero. *)
Definition number_with_sign (s : bool) (x : float) : Prop :=
  match x with
  | S754_nan => False
  | S754_zero s' | S754_infinity s' | S754_finite s' _ _ => s' = s
  end.

Definition nonzero_with_sign (s : bool) (x : float) : Prop :=
  match x with
  | S754_infinity s' | S754_finite s' _ _ => s' = s
  | _ => False
  end.
End Binary32.

(** * Results *)

(** ** In-place writes fill the array front to back *)

Section Writes.
Context {F : Type} `{Scalar F}.

Lemma writes_nothing : writes (F := F) (fun b => b) [].
Proof.
  intros [vs i] _; simpl. rewrite Nat.add_0_r, take_drop. reflexivity.
Qed.

Lemma writes_put (x y zz u v : F) :
  writes (put x y zz u v) [vertex_at x y zz u v].
Proof.
  intros [vs i] Hfit; simpl in *. unfold put; simpl.
  destruct (lookup_lt_is_Some_2 vs i ltac:(lia)) as [w Hw].
  f_equal; [|lia].
  rewrite <- (take_drop_middle vs i w Hw) at 1.
  rewrite alter_app_r_alt by (rewrite length_take; lia).
  rewrite length_take, Nat.min_l, Nat.sub_diag by lia. simpl.
  replace (i + 1)%nat with (S i) by lia. reflexivity.
Qed.

Lemma writes_seq f g (l k : list (Vertex F)) :
  writes f l -> writes g k -> writes (fun b => g (f b)) (l ++ k).
Proof.
  intros Hf Hg b Hfit. rewrite length_app in Hfit.
  rewrite (Hf b) by lia.
  assert (Hlen : length (take (index b) (vertices b)) = index b)
    by (rewrite length_take; lia).
  rewrite Hg; simpl.
  - rewrite !length_app. f_equal; [|lia].
    rewrite (app_assoc (take _ _) l).
    assert (Hlen' : (index b + length l)%nat
                    = length (take (index b) (vertices b) ++ l))
      by (rewrite length_app, Hlen; reflexivity).
    rewrite take_app_length' by exact Hlen'.
    rewrite <- !app_assoc. do 2 f_equal.
    rewrite (app_assoc (take _ _) l).
    replace (index b + length l + length k)%nat
      with (length (take (index b) (vertices b) ++ l) + length k)%nat by lia.
    rewrite drop_app_add, drop_drop.
    do 2 f_equal. lia.
  - rewrite !length_app, Hlen, length_drop. lia.
Qed.

Lemma writes_fold (body : Z -> Buffer -> Buffer) (lf : Z -> list (Vertex F)) js :
  (forall j, writes (body j) (lf j)) ->
  writes (fun b => fold_left (fun acc j => body j acc) js b) (js ≫= lf).
Proof.
  intros Hbody. induction js as [|j js IH].
  - apply writes_nothing.
  - rewrite bind_cons.
    apply (writes_seq (body j) (fun b => fold_left (fun acc j => body j acc) js b));
      [apply Hbody | apply IH].
Qed.

Lemma writes_for_int n body (lf : Z -> list (Vertex F)) :
  (forall j, writes (body j) (lf j)) ->
  writes (for_int n body) (seqZ 0 n ≫= lf).
Proof. intros Hbody. apply (writes_fold body lf), Hbody. Qed.
End Writes.

(** ** What the loops of [fill] write *)

Section Layout.
Context {F : Type} `{Scalar F}.

Lemma bind_singleton_fmap {A B} (f : A -> B) (l : list A) :
  l ≫= (fun a => [f a]) = f <$> l.
Proof.
  induction l as [|a l IH]; [reflexivity|].
  rewrite bind_cons, fmap_cons, IH. reflexivity.
Qed.

Lemma length_bind_const {A B} (f : A -> list B) (c : nat) (l : list A) :
  (forall a, length (f a) = c) -> length (l ≫= f) = (length l * c)%nat.
Proof.
  intros Hf. induction l as [|a l IH]; [reflexivity|].
  rewrite bind_cons, length_app, IH, Hf. simpl. lia.
Qed.

(** Blocks of equal length [c]: entry [k] of block [i]. *)
Lemma lookup_bind_const {A B} (f : A -> list B) (c : nat) (l : list A) i k a :
  (forall a, length (f a) = c) ->
  l !! i = Some a -> (k < c)%nat ->
  (l ≫= f) !! (i * c + k)%nat = f a !! k.
Proof.
  intros Hf. revert i. induction l as [|a' l IH]; intros i Hi Hk.
  - rewrite lookup_nil in Hi. discriminate.
  - rewrite bind_cons. destruct i as [|i]; simpl in Hi.
    + injection Hi as ->. simpl. rewrite lookup_app_l by (rewrite Hf; lia).
      reflexivity.
    + rewrite lookup_app_r by (rewrite Hf; lia).
      rewrite Hf. replace (S i * c + k - c)%nat with (i * c + k)%nat by lia.
      apply IH; assumption.
Qed.

Variables (size_x size_y : F) (num_verts_x num_verts_y : Z).
Variables (corner_radius : F) (corner_verts : Z) (corner_mask : CornerMask.t).

Let niy := num_interior_verts_y num_verts_y corner_verts.
Let nix := num_interior_verts_x num_verts_x corner_verts.

Lemma writes_left_tab :
  writes (left_tab size_x size_y num_verts_y corner_radius corner_verts)
         (left_tab_vertices size_x size_y num_verts_y corner_radius corner_verts).
Proof.
  unfold left_tab, left_tab_vertices. rewrite <- bind_singleton_fmap.
  apply writes_for_int. intros y. apply writes_put.
Qed.

Lemma writes_right_tab :
  writes (right_tab size_x size_y num_verts_y corner_radius corner_verts)
         (right_tab_vertices size_x size_y num_verts_y corner_radius corner_verts).
Proof.
  unfold right_tab, right_tab_vertices. rewrite <- bind_singleton_fmap.
  apply writes_for_int. intros y. apply writes_put.
Qed.

Lemma writes_column x :
  writes (column size_x size_y num_verts_x num_verts_y corner_radius corner_verts x)
         (column_vertices size_x size_y num_verts_x num_verts_y corner_radius
            corner_verts x).
Proof.
  unfold column, column_vertices.
  set (inner := for_int _ _).
  assert (Hinner : writes inner
            (interior_vertex size_x size_y num_verts_x num_verts_y
               corner_radius corner_verts x <$> seqZ 0 niy)).
  { subst inner. rewrite <- bind_singleton_fmap.
    apply writes_for_int. intros y. apply writes_put. }
  destruct (0 <? corner_verts)%Z.
  - apply (writes_seq (put _ _ _ _ _) (fun b => put _ _ _ _ _ (inner b)));
      [apply writes_put|].
    apply (writes_seq inner (put _ _ _ _ _)); [exact Hinner | apply writes_put].
  - simpl. rewrite app_nil_r. exact Hinner.
Qed.

Lemma writes_fan_step i :
  writes (fan_step size_x size_y corner_radius corner_verts corner_mask i)
         (fan_step_vertices size_x size_y corner_radius corner_verts corner_mask i).
Proof.
  assert (Hput : forall a_xy a_uv o,
             writes (put_fan size_x size_y a_xy a_uv o)
                    [fan_vertex size_x size_y a_xy a_uv o])
    by (intros; apply writes_put).
  exact (writes_seq _ _ _ _ (Hput _ _ _)
           (writes_seq _ _ _ _ (Hput _ _ _)
              (writes_seq _ _ _ _ (Hput _ _ _) (Hput _ _ _)))).
Qed.

Lemma length_column_vertices x :
  length (column_vertices size_x size_y num_verts_x num_verts_y corner_radius
            corner_verts x)
  = ((if (0 <? corner_verts)%Z then 2 else 0) + Z.to_nat niy)%nat.
Proof.
  unfold column_vertices. rewrite !length_app, length_fmap, length_seqZ.
  destruct (0 <? corner_verts)%Z; simpl; lia.
Qed.

(** All writes of [fill], one after the other. *)
Lemma writes_fill_loops :
  writes
    (fun b =>
       let b := if (0 <? corner_verts)%Z
                then left_tab size_x size_y num_verts_y corner_radius
                       corner_verts b
                else b in
       let b := for_int nix
                  (column size_x size_y num_verts_x num_verts_y corner_radius
                     corner_verts) b in
       if (0 <? corner_verts)%Z
       then for_int corner_verts
              (fan_step size_x size_y corner_radius corner_verts corner_mask)
              (right_tab size_x size_y num_verts_y corner_radius corner_verts b)
       else b)
    (quad_vertices size_x size_y num_verts_x num_verts_y corner_radius
       corner_verts corner_mask).
Proof.
  unfold quad_vertices. cbv zeta.
  pose proof (writes_for_int nix _ _ writes_column) as Hcols.
  pose proof (writes_for_int corner_verts _ _ writes_fan_step) as Hfan.
  destruct (0 <? corner_verts)%Z.
  - exact (writes_seq _ _ _ _ writes_left_tab
             (writes_seq _ _ _ _ Hcols
                (writes_seq _ _ _ _ writes_right_tab Hfan))).
  - simpl. rewrite app_nil_r. exact Hcols.
Qed.

Lemma length_quad_vertices :
  0 <= nix -> 0 <= niy -> 0 <= corner_verts ->
  length (quad_vertices size_x size_y num_verts_x num_verts_y corner_radius
            corner_verts corner_mask)
  = num_verts num_verts_x num_verts_y corner_verts.
Proof.
  intros Hx Hy Hc. unfold quad_vertices, num_verts, num_corner_verts.
  fold nix niy.
  rewrite !length_app.
  rewrite (length_bind_const _ _ _ length_column_vertices), length_seqZ.
  fold niy.
  destruct (0 <? corner_verts)%Z eqn:Hcv.
  - rewrite length_app.
    rewrite (length_bind_const _ 4%nat) by reflexivity.
    unfold left_tab_vertices, right_tab_vertices.
    rewrite !length_fmap, !length_seqZ. fold niy.
    apply Nat2Z.inj.
    rewrite !Nat2Z.inj_add, !Nat2Z.inj_mul, Nat2Z.inj_add, !Z2Nat.id by nia.
    simpl. lia.
  - simpl. apply Nat2Z.inj.
    rewrite !Nat2Z.inj_add, !Nat2Z.inj_mul, !Z2Nat.id by nia.
    simpl. lia.
Qed.

(** The array is filled exactly: every slot is written once, and the
    [DCHECK_EQ(num_verts, index)] of line 288 holds. *)
Lemma fill_layout :
  0 <= nix -> 0 <= niy -> 0 <= corner_verts ->
  fill size_x size_y num_verts_x num_verts_y corner_radius corner_verts
    corner_mask
  = MkBuffer
      (quad_vertices size_x size_y num_verts_x num_verts_y corner_radius
         corner_verts corner_mask)
      (num_verts num_verts_x num_verts_y corner_verts).
Proof.
  intros Hx Hy Hc. pose proof (length_quad_vertices Hx Hy Hc) as Hlen.
  unfold fill. cbv zeta.
  rewrite (writes_fill_loops (MkBuffer _ 0%nat)); simpl.
  - rewrite Hlen. f_equal.
    rewrite drop_ge by (rewrite length_replicate; lia).
    apply app_nil_r.
  - rewrite Hlen, length_replicate. lia.
Qed.
End Layout.

(** ** Validation *)

Section Validation.
Context {F : Type} `{Scalar F}.
Local Open Scope float_scope.

Lemma check_vertex_counts_None nx ny cv :
  check_vertex_counts nx ny cv = None <->
  (0 < cv /\ 4 <= nx /\ 4 <= ny) \/ (cv = 0 /\ 2 <= nx /\ 2 <= ny).
Proof.
  unfold check_vertex_counts.
  destruct (Z.ltb_spec 0 cv); [|destruct (Z.eqb_spec cv 0)].
  - destruct (Z.ltb_spec nx 4), (Z.ltb_spec ny 4); simpl;
      split; try discriminate; try lia; intros; reflexivity.
  - destruct (Z.ltb_spec nx 2), (Z.ltb_spec ny 2); simpl;
      split; try discriminate; try lia; intros; reflexivity.
  - split; [discriminate | lia].
Qed.

Lemma accepted_iff sx sy nx ny cr cv mask :
  accepted sx sy nx ny cr cv mask <->
  (sx <? f0) = false /\ (sy <? f0) = false
  /\ check_vertex_counts nx ny cv = None.
Proof.
  unfold accepted, CalculateTesselatedQuadVertices_log.
  destruct (sx <? f0), (sy <? f0); simpl;
    try (split; [discriminate | intros (? & ? & ?); discriminate]).
  destruct (check_vertex_counts nx ny cv); simpl.
  - split; [discriminate | intros (_ & _ & ?); discriminate].
  - split; auto.
Qed.

Lemma interior_counts nx ny cv :
  check_vertex_counts nx ny cv = None ->
  2 <= num_interior_verts_x nx cv /\ 2 <= num_interior_verts_y ny cv
  /\ 0 <= cv.
Proof.
  intros Hc. apply check_vertex_counts_None in Hc.
  unfold num_interior_verts_x, num_interior_verts_y.
  destruct (Z.ltb_spec 0 cv); lia.
Qed.

(** On accepted input the function returns the layout [quad_vertices],
    computed with the clamped radius. *)
Lemma CalculateTesselatedQuadVertices_layout sx sy nx ny cr cv mask :
  accepted sx sy nx ny cr cv mask ->
  CalculateTesselatedQuadVertices sx sy nx ny cr cv mask
  = quad_vertices sx sy nx ny (clamp_radius sx sy cr) cv mask.
Proof.
  intros Hacc. apply accepted_iff in Hacc. destruct Hacc as (Hx & Hy & Hc).
  unfold CalculateTesselatedQuadVertices, CalculateTesselatedQuadVertices_log.
  rewrite Hx, Hy, Hc. simpl.
  destruct (interior_counts _ _ _ Hc) as (Hnx & Hny & Hcv).
  rewrite fill_layout by lia. reflexivity.
Qed.

Lemma accepted_length sx sy nx ny cr cv mask :
  accepted sx sy nx ny cr cv mask ->
  length (CalculateTesselatedQuadVertices sx sy nx ny cr cv mask)
  = num_verts nx ny cv.
Proof.
  intros Hacc.
  rewrite (CalculateTesselatedQuadVertices_layout _ _ _ _ _ _ _ Hacc).
  apply accepted_iff in Hacc. destruct Hacc as (_ & _ & Hc).
  destruct (interior_counts _ _ _ Hc) as (Hnx & Hny & Hcv).
  apply length_quad_vertices; lia.
Qed.

Lemma accepted_nonempty sx sy nx ny cr cv mask :
  accepted sx sy nx ny cr cv mask ->
  CalculateTesselatedQuadVertices sx sy nx ny cr cv mask <> [].
Proof.
  intros Hacc Hnil. pose proof (accepted_length _ _ _ _ _ _ _ Hacc) as Hlen.
  rewrite Hnil in Hlen. simpl in Hlen.
  apply accepted_iff in Hacc. destruct Hacc as (_ & _ & Hc).
  destruct (interior_counts _ _ _ Hc) as (Hnx & Hny & Hcv).
  unfold num_verts, num_corner_verts in Hlen.
  destruct (0 <? cv)%Z; nia.
Qed.
End Validation.

(** ** Claims about the vertex count and the validation *)

Section Counts.
Context {F : Type} `{Scalar F}.


End Counts.


(** ** 32-bit integers *)

Section Int32Facts.

Lemma wrap_range n : Int32.in_range (Int32.wrap n).
Proof.
  unfold Int32.in_range, Int32.wrap, Int32.min_int, Int32.max_int.
  pose proof (Z.mod_pos_bound (n + 2 ^ 31) (2 ^ 32) ltac:(lia)). lia.
Qed.

Lemma wrap_small n : Int32.in_range n -> Int32.wrap n = n.
Proof.
  unfold Int32.in_range, Int32.wrap, Int32.min_int, Int32.max_int.
  intros Hn. rewrite Z.mod_small by lia. lia.
Qed.

(** Wrapping changes a value by a multiple of [2^32]. *)
Lemma wrap_spec n : exists k, Int32.wrap n = n + 2 ^ 32 * k.
Proof.
  exists (- ((n + 2 ^ 31) / 2 ^ 32)). unfold Int32.wrap.
  pose proof (Z.div_mod (n + 2 ^ 31) (2 ^ 32) ltac:(lia)). lia.
Qed.

Lemma wrap_unique a n k :
  Int32.in_range a -> a = n + 2 ^ 32 * k -> a = Int32.wrap n.
Proof.
  intros Ha E. destruct (wrap_spec n) as (k' & E').
  pose proof (wrap_range n) as Hw.
  unfold Int32.in_range, Int32.min_int, Int32.max_int in *. lia.
Qed.

Lemma wrap_mod n : Int32.wrap n mod 2 ^ 32 = n mod 2 ^ 32.
Proof.
  destruct (wrap_spec n) as (k & ->).
  rewrite Z.mul_comm. apply Z.mod_add. lia.
Qed.

Lemma wrap_bits n i : i < 32 -> Z.testbit (Int32.wrap n) i = Z.testbit n i.
Proof.
  intros Hi.
  rewrite <- (Z.mod_pow2_bits_low (Int32.wrap n) 32 i),
    <- (Z.mod_pow2_bits_low n 32 i) by assumption.
  rewrite wrap_mod. reflexivity.
Qed.

Lemma wrap_zero u : 0 <= u < 2 ^ 32 -> Int32.wrap u = 0 <-> u = 0.
Proof.
  intros Hu. split; [|intros ->; reflexivity].
  intros E. pose proof (wrap_mod u) as Hm. rewrite E in Hm.
  rewrite Z.mod_0_l, Z.mod_small in Hm by lia. lia.
Qed.
End Int32Facts.

(** ** The vertex count in [int] *)

Section Advances.
Context {F : Type} `{Scalar F}.

Lemma advances_nothing : advances (F := F) (fun b => b) 0.
Proof. intros b. split; [lia | reflexivity]. Qed.

Lemma advances_put (x y zz u v : F) : advances (F := F) (put x y zz u v) 1.
Proof.
  intros [vs i]. unfold put; simpl. split; [lia | apply length_alter].
Qed.

Lemma advances_seq f g (n m : nat) :
  advances (F := F) f n -> advances (F := F) g m ->
  advances (F := F) (fun b => g (f b)) (n + m).
Proof.
  intros Hf Hg b. destruct (Hf b) as [Hi Hl]. destruct (Hg (f b)) as [Hi' Hl'].
  split; [lia | congruence].
Qed.

Lemma advances_fold (body : Z -> Buffer (F := F) -> Buffer (F := F)) (lf : Z -> list (Vertex F)) js :
  (forall j, advances (F := F) (body j) (length (lf j))) ->
  advances (F := F) (fun b => fold_left (fun acc j => body j acc) js b)
           (length (js ≫= lf)).
Proof.
  intros Hbody. induction js as [|j js IH].
  - apply advances_nothing.
  - rewrite bind_cons, length_app.
    apply (advances_seq (body j)
             (fun b => fold_left (fun acc j => body j acc) js b));
      [apply Hbody | apply IH].
Qed.

Lemma advances_for_int n body (lf : Z -> list (Vertex F)) :
  (forall j, advances (F := F) (body j) (length (lf j))) ->
  advances (F := F) (for_int n body) (length (seqZ 0 n ≫= lf)).
Proof. intros Hbody. apply (advances_fold body lf), Hbody. Qed.

Variables (size_x size_y : F) (num_verts_x num_verts_y : Z).
Variables (corner_radius : F) (corner_verts : Z) (corner_mask : CornerMask.t).

Lemma advances_left_tab :
  advances (F := F) (left_tab size_x size_y num_verts_y corner_radius corner_verts)
    (length (left_tab_vertices size_x size_y num_verts_y corner_radius
               corner_verts)).
Proof.
  unfold left_tab, left_tab_vertices. rewrite <- bind_singleton_fmap.
  apply advances_for_int. intros y. apply advances_put.
Qed.

Lemma advances_right_tab :
  advances (F := F) (right_tab size_x size_y num_verts_y corner_radius corner_verts)
    (length (right_tab_vertices size_x size_y num_verts_y corner_radius
               corner_verts)).
Proof.
  unfold right_tab, right_tab_vertices. rewrite <- bind_singleton_fmap.
  apply advances_for_int. intros y. apply advances_put.
Qed.

Lemma advances_column x :
  advances
    (column size_x size_y num_verts_x num_verts_y corner_radius corner_verts x)
    (length (column_vertices size_x size_y num_verts_x num_verts_y
               corner_radius corner_verts x)).
Proof.
  unfold column, column_vertices.
  set (inner := for_int _ _).
  assert (Hinner : advances (F := F) inner
            (length (interior_vertex size_x size_y num_verts_x num_verts_y
                       corner_radius corner_verts x
                     <$> seqZ 0 (num_interior_verts_y num_verts_y corner_verts)))).
  { subst inner. rewrite <- bind_singleton_fmap.
    apply advances_for_int. intros y. apply advances_put. }
  destruct (0 <? corner_verts)%Z.
  - rewrite !length_app.
    apply (advances_seq (put _ _ _ _ _) (fun b => put _ _ _ _ _ (inner b)));
      [apply advances_put|].
    apply (advances_seq inner (put _ _ _ _ _));
      [exact Hinner | apply advances_put].
  - simpl. rewrite app_nil_r. exact Hinner.
Qed.

Lemma advances_fan_step i :
  advances (F := F) (fan_step size_x size_y corner_radius corner_verts corner_mask i)
    (length (fan_step_vertices size_x size_y corner_radius corner_verts
               corner_mask i)).
Proof.
  assert (Hput : forall a_xy a_uv o,
             advances (F := F) (put_fan size_x size_y a_xy a_uv o) 1)
    by (intros; apply advances_put).
  exact (advances_seq _ _ _ _ (Hput _ _ _)
           (advances_seq _ _ _ _ (Hput _ _ _)
              (advances_seq _ _ _ _ (Hput _ _ _) (Hput _ _ _)))).
Qed.

(** The loops make as many writes as the layout has vertices, whatever the
    size of the array. *)
Lemma advances_fill_loops :
  advances
    (fill_loops size_x size_y num_verts_x num_verts_y corner_radius
       corner_verts corner_mask)
    (length (quad_vertices size_x size_y num_verts_x num_verts_y
               corner_radius corner_verts corner_mask)).
Proof.
  unfold fill_loops, quad_vertices. cbv zeta.
  pose proof (advances_for_int (num_interior_verts_x num_verts_x corner_verts)
                _ _ advances_column) as Hcols.
  pose proof (advances_for_int corner_verts _ _ advances_fan_step) as Hfan.
  destruct (0 <? corner_verts)%Z.
  - rewrite !length_app.
    exact (advances_seq _ _ _ _ advances_left_tab
             (advances_seq _ _ _ _ Hcols
                (advances_seq _ _ _ _ advances_right_tab Hfan))).
  - simpl. rewrite app_nil_r. exact Hcols.
Qed.
End Advances.

Section CountInInt.
Context {F : Type} `{Scalar F}.

Lemma wrap_congr a b k : a = b + 2 ^ 32 * k -> Int32.wrap a = Int32.wrap b.
Proof.
  intros E. destruct (wrap_spec a) as (k' & Ea).
  apply (wrap_unique _ _ (k + k')); [apply wrap_range|]. lia.
Qed.

(** The [int] count is the count on the integers, wrapped. *)
Lemma num_verts_int_wrap nx ny cv :
  num_verts_int nx ny cv = Int32.wrap (exact_count nx ny cv).
Proof.
  unfold num_verts_int, num_corner_verts_int, num_interior_verts_x_int,
    num_interior_verts_y_int, exact_count, num_corner_verts,
    num_interior_verts_x, num_interior_verts_y, Int32.add, Int32.sub, Int32.mul.
  destruct (0 <? cv)%Z.
  - destruct (wrap_spec (nx - 2)) as (k1 & ->).
    destruct (wrap_spec (ny - 2)) as (k2 & ->).
    set (a := nx - 2 + 2 ^ 32 * k1). set (b := ny - 2 + 2 ^ 32 * k2).
    destruct (wrap_spec (4 * cv)) as (k3 & ->).
    destruct (wrap_spec (2 * a)) as (k4 & ->).
    destruct (wrap_spec (2 * b)) as (k5 & ->).
    destruct (wrap_spec (4 * cv + 2 ^ 32 * k3 + (2 * a + 2 ^ 32 * k4)))
      as (k6 & ->).
    destruct (wrap_spec (4 * cv + 2 ^ 32 * k3 + (2 * a + 2 ^ 32 * k4)
                         + 2 ^ 32 * k6 + (2 * b + 2 ^ 32 * k5))) as (k7 & ->).
    destruct (wrap_spec (a * b)) as (k8 & ->).
    subst a b.
    apply (wrap_congr _ _
             (k8 + k7 + k6 + k5 + k4 + k3 + 2 * k1 + 2 * k2
              + (nx - 2) * k2 + (ny - 2) * k1 + 2 ^ 32 * k1 * k2)).
    ring.
  - destruct (wrap_spec (nx * ny)) as (k & ->).
    apply (wrap_congr _ _ k). ring.
Qed.

Lemma exact_count_num_verts nx ny cv :
  Z.to_nat (exact_count nx ny cv) = num_verts nx ny cv.
Proof. reflexivity. Qed.

Lemma exact_count_pos nx ny cv :
  check_vertex_counts nx ny cv = None -> 4 <= exact_count nx ny cv.
Proof.
  intros Hc. destruct (interior_counts _ _ _ Hc) as (Hnx & Hny & Hcv).
  unfold exact_count, num_corner_verts. destruct (0 <? cv)%Z; nia.
Qed.

Variables (sx sy : F) (nx ny : Z) (cr : F) (cv : Z) (mask : CornerMask.t).
Hypothesis Hacc : accepted sx sy nx ny cr cv mask.

Let r := clamp_radius sx sy cr.
Let b := fill_int32 sx sy nx ny r cv mask.

(** The number of writes and the number of slots. *)
Lemma fill_int32_steps :
  index b = Z.to_nat (exact_count nx ny cv)
  /\ length (vertices b)
     = Z.to_nat (size_t_of_int (num_verts_int nx ny cv)).
Proof.
  apply accepted_iff in Hacc. destruct Hacc as (_ & _ & Hc).
  destruct (interior_counts _ _ _ Hc) as (Hnx & Hny & Hcv).
  destruct (advances_fill_loops sx sy nx ny r cv mask
              (MkBuffer
                 (replicate
                    (Z.to_nat (size_t_of_int (num_verts_int nx ny cv)))
                    Vertex_init) 0)) as [Hi Hl].
  unfold b, fill_int32. rewrite Hi, Hl. cbn [index vertices].
  rewrite length_replicate, length_quad_vertices by lia.
  split; reflexivity.
Qed.

(** When the count fits into an [int], the array has one slot for each
    write, and the call returns what the function on the integers returns. *)
Lemma int32_returns :
  exact_count nx ny cv <= Int32.max_int ->
  num_verts_int nx ny cv = exact_count nx ny cv
  /\ b = fill sx sy nx ny r cv mask
  /\ CalculateTesselatedQuadVertices_int32 sx sy nx ny cr cv mask
     = Returned None (CalculateTesselatedQuadVertices sx sy nx ny cr cv mask).
Proof.
  intros Hfit. pose proof Hacc as Hacc'.
  apply accepted_iff in Hacc'. destruct Hacc' as (Hx & Hy & Hc).
  pose proof (exact_count_pos _ _ _ Hc) as Hpos.
  destruct (interior_counts _ _ _ Hc) as (Hnx & Hny & Hcv).
  assert (En : num_verts_int nx ny cv = exact_count nx ny cv).
  { rewrite num_verts_int_wrap. apply wrap_small.
    unfold Int32.in_range, Int32.min_int, Int32.max_int in *. lia. }
  assert (Es : size_t_of_int (num_verts_int nx ny cv) = exact_count nx ny cv).
  { rewrite En. unfold size_t_of_int. apply Z.mod_small.
    unfold Int32.max_int in Hfit. lia. }
  assert (Eb : b = fill sx sy nx ny r cv mask).
  { unfold b, fill_int32. rewrite Es. reflexivity. }
  split; [exact En|]. split; [exact Eb|].
  unfold CalculateTesselatedQuadVertices_int32.
  rewrite Hx, Hy, Hc. cbn [orb]. cbv zeta.
  fold r. fold b. rewrite Es.
  destruct (Z.ltb_spec vector_max_size (exact_count nx ny cv)) as [Hbig|_].
  { unfold vector_max_size, Int32.max_int in *. lia. }
  rewrite Eb, fill_layout by lia. cbn [index vertices].
  rewrite length_quad_vertices by lia.
  rewrite Nat.leb_refl.
  rewrite (CalculateTesselatedQuadVertices_layout _ _ _ _ _ _ _ Hacc).
  reflexivity.
Qed.

(** When it does not fit, the wrapped count is negative and the constructor
    of the vector throws, or it is smaller than the number of writes and a
    write leaves the array. *)
Lemma int32_overflows :
  Int32.max_int < exact_count nx ny cv ->
  num_verts_int nx ny cv <> exact_count nx ny cv
  /\ (num_verts_int nx ny cv < 0 ->
      CalculateTesselatedQuadVertices_int32 sx sy nx ny cr cv mask = LengthError)
  /\ (0 <= num_verts_int nx ny cv ->
      (length (vertices b) < index b)%nat
      /\ CalculateTesselatedQuadVertices_int32 sx sy nx ny cr cv mask
         = OutOfBounds).
Proof.
  intros Hbig. pose proof Hacc as Hacc'.
  apply accepted_iff in Hacc'. destruct Hacc' as (Hx & Hy & Hc).
  pose proof (wrap_range (exact_count nx ny cv)) as Hw.
  rewrite <- num_verts_int_wrap in Hw.
  unfold Int32.in_range, Int32.min_int, Int32.max_int in *.
  destruct fill_int32_steps as [Hi Hl].
  split; [lia|].
  unfold CalculateTesselatedQuadVertices_int32.
  rewrite Hx, Hy, Hc. cbn [orb]. cbv zeta. fold r. fold b.
  split.
  - intros Hneg.
    assert (Es : size_t_of_int (num_verts_int nx ny cv)
                 = num_verts_int nx ny cv + 2 ^ 64).
    { unfold size_t_of_int. symmetry.
      apply (Z.mod_unique _ _ (-1)); lia. }
    rewrite Es.
    destruct (Z.ltb_spec vector_max_size (num_verts_int nx ny cv + 2 ^ 64));
      [reflexivity|]. unfold vector_max_size in *. lia.
  - intros Hnn.
    assert (Es : size_t_of_int (num_verts_int nx ny cv) = num_verts_int nx ny cv)
      by (unfold size_t_of_int; apply Z.mod_small; lia).
    rewrite Es in *.
    assert (Hlt : (length (vertices b) < index b)%nat) by (rewrite Hi, Hl; lia).
    split; [exact Hlt|].
    destruct (Z.ltb_spec vector_max_size (num_verts_int nx ny cv)) as [Hmax|_];
      [unfold vector_max_size in *; lia|].
    destruct (Nat.leb_spec (index b) (length (vertices b))); [lia | reflexivity].
Qed.
End CountInInt.

(** C1, at the failing input.  [65537 x 65536] vertices without fans pass
    validation; the product of line 150 is [2^32 + 65536], which is not an
    [int]: the wrapped count is 65536, the array gets 65536 slots, the loops
    make 4295032832 writes, and the write number 65537 is outside the array
    (the [DCHECK_EQ] of line 288 fails as well).  The call does not return a
    sequence of [num_verts_x * num_verts_y] vertices.  With [46341 x 46341]
    vertices the wrapped count is negative and the constructor of the vector
    throws. *)
Theorem vertex_count_overflows_int :
  let one := Binary32.lit 1 1 in
  let zero := Binary32.lit 0 1 in
  let b := fill_int32 (H := Binary32.poly_ops) one one 65537 65536
             (clamp_radius (H := Binary32.poly_ops) one one zero) 0
             CornerMask.kAll in
  (Int32.in_range 65537 /\ Int32.in_range 65536
   /\ accepted (H := Binary32.poly_ops) one one 65537 65536 zero 0 CornerMask.kAll)
  /\ (exact_count 65537 65536 0 = 65537 * 65536
      /\ Int32.max_int < exact_count 65537 65536 0)
  /\ num_verts_int 65537 65536 0 = 65536
  /\ (length (vertices b) = Z.to_nat 65536
      /\ index b = Z.to_nat (65537 * 65536))
  /\ CalculateTesselatedQuadVertices_int32 (H := Binary32.poly_ops)
       one one 65537 65536 zero 0 CornerMask.kAll = OutOfBounds
  /\ (accepted (H := Binary32.poly_ops) one one 46341 46341 zero 0 CornerMask.kAll
      /\ num_verts_int 46341 46341 0 = 46341 * 46341 - 2 ^ 32
      /\ CalculateTesselatedQuadVertices_int32 (H := Binary32.poly_ops)
           one one 46341 46341 zero 0 CornerMask.kAll = LengthError).
Proof.
  intros one zero b.
  assert (Hacc : accepted (H := Binary32.poly_ops) one one 65537 65536 zero 0
                   CornerMask.kAll)
    by (apply accepted_iff; repeat split; reflexivity).
  assert (Hacc' : accepted (H := Binary32.poly_ops) one one 46341 46341 zero 0
                    CornerMask.kAll)
    by (apply accepted_iff; repeat split; reflexivity).
  assert (Hn : num_verts_int 65537 65536 0 = 65536) by reflexivity.
  assert (Hn' : num_verts_int 46341 46341 0 = 46341 * 46341 - 2 ^ 32)
    by reflexivity.
  assert (Hbig : Int32.max_int < exact_count 65537 65536 0) by reflexivity.
  assert (Hbig' : Int32.max_int < exact_count 46341 46341 0) by reflexivity.
  destruct (fill_int32_steps _ _ _ _ _ _ _ Hacc) as [Hi Hl].
  destruct (int32_overflows _ _ _ _ _ _ _ Hacc Hbig) as (_ & _ & Hoob).
  destruct (int32_overflows _ _ _ _ _ _ _ Hacc' Hbig') as (_ & Hthrow & _).
  split; [split; [|split; [|exact Hacc]]; split; discriminate|].
  split; [split; [reflexivity | exact Hbig]|].
  split; [exact Hn|].
  split; [split; [exact Hl | exact Hi]|].
  split; [apply Hoob; rewrite Hn; discriminate|].
  split; [exact Hacc'|]. split; [exact Hn'|].
  apply Hthrow. rewrite Hn'. reflexivity.
Qed.

Section ArrayFilled.
Context {F : Type} `{Scalar F}.

(** X5.  The array has as many slots as the [int] count of lines 141-150
    says.  On accepted input whose count fits into an [int] the loops write
    each slot exactly once, front to back: the running [index] ends at the
    length of the array, so the [DCHECK_EQ(num_verts, index)] of line 288
    holds and no write is out of bounds, and the array returned is the list
    of the vertices written, in the order of writing.  When the count does
    not fit, the constructor of the vector throws, or the loops make more
    writes than the array has slots. *)
Theorem array_filled_exactly sx sy nx ny (cr : F) cv mask :
  accepted sx sy nx ny cr cv mask ->
  let b := fill_int32 sx sy nx ny (clamp_radius sx sy cr) cv mask in
  let n := Z.to_nat (size_t_of_int (num_verts_int nx ny cv)) in
  length (vertices b) = n
  /\ (exact_count nx ny cv <= Int32.max_int ->
      index b = n
      /\ vertices b
         = quad_vertices sx sy nx ny (clamp_radius sx sy cr) cv mask
      /\ CalculateTesselatedQuadVertices_int32 sx sy nx ny cr cv mask
         = Returned None (vertices b))
  /\ (Int32.max_int < exact_count nx ny cv ->
      (num_verts_int nx ny cv < 0
       /\ CalculateTesselatedQuadVertices_int32 sx sy nx ny cr cv mask
          = LengthError)
      \/ ((length (vertices b) < index b)%nat
          /\ CalculateTesselatedQuadVertices_int32 sx sy nx ny cr cv mask
             = OutOfBounds)).
Proof.
  intros Hacc b n.
  destruct (fill_int32_steps _ _ _ _ _ _ _ Hacc) as [Hi Hl].
  split; [exact Hl|]. split.
  - intros Hfit.
    destruct (int32_returns _ _ _ _ _ _ _ Hacc Hfit) as (En & Eb & Eout).
    pose proof (CalculateTesselatedQuadVertices_layout _ _ _ _ _ _ _ Hacc)
      as Hout.
    pose proof Hacc as Hacc'.
    apply accepted_iff in Hacc'. destruct Hacc' as (_ & _ & Hc).
    destruct (interior_counts _ _ _ Hc) as (Hnx & Hny & Hcv).
    pose proof (exact_count_pos _ _ _ Hc) as Hpos.
    assert (Ev : vertices b
                 = quad_vertices sx sy nx ny (clamp_radius sx sy cr) cv mask).
    { unfold b. rewrite Eb, fill_layout by lia. reflexivity. }
    split; [|split; [exact Ev|]].
    + unfold b, n. rewrite Hi, En. f_equal. unfold size_t_of_int.
      symmetry. apply Z.mod_small. unfold Int32.max_int in Hfit. lia.
    + rewrite Eout, Ev, Hout. reflexivity.
  - intros Hbig.
    destruct (int32_overflows _ _ _ _ _ _ _ Hacc Hbig) as (_ & Hneg & Hnn).
    destruct (Z.lt_ge_cases (num_verts_int nx ny cv) 0) as [Hlt|Hge].
    + left. split; [exact Hlt | apply Hneg; exact Hlt].
    + right. apply Hnn. exact Hge.
Qed.
End ArrayFilled.

Lemma array_filled_exactly_witness :
  index (fill_int32 (H := Binary32.poly_ops) (Binary32.lit 2 1)
           (Binary32.lit 2 1) 4 4
           (clamp_radius (H := Binary32.poly_ops)
              (Binary32.lit 2 1) (Binary32.lit 2 1) (Binary32.lit 3 10))
           4 CornerMask.kAll)
  = Z.to_nat (size_t_of_int (num_verts_int 4 4 4)).
Proof.
  destruct (array_filled_exactly (H := Binary32.poly_ops)
              (Binary32.lit 2 1) (Binary32.lit 2 1) 4 4 (Binary32.lit 3 10) 4
              CornerMask.kAll) as (_ & Hfit & _).
  - apply accepted_iff. repeat split; reflexivity.
  - apply Hfit. discriminate.
Defined.

(** ** The clamp of the corner radius *)

Section Clamp.
Context {F : Type} `{Scalar F}.



End Clamp.

(** ** Facts about binary32 *)

Module Binary32Facts.
Import Binary32.

Lemma SFltb_irrefl (a : float) : SFltb a a = false.
Proof.
  unfold SFltb. destruct a as [s|s| |s m e]; simpl; try reflexivity.
  - destruct s; reflexivity.
  - rewrite Z.compare_refl, Pos.compare_cont_refl.
    destruct s; reflexivity.
Qed.


(** Rounding acts on the magnitude: the sign is carried along. *)
Lemma SFopp_binary_round_aux s m e l :
  SFopp (binary_round_aux prec emax s m e l)
  = binary_round_aux prec emax (negb s) m e l.
Proof.
  unfold binary_round_aux.
  destruct (shr_fexp prec emax m e l) as [mrs e1].
  destruct (shr_fexp prec emax _ e1 loc_Exact) as [mrs2 e2].
  destruct (shr_m mrs2); [reflexivity| |reflexivity].
  destruct (e2 <=? emax - prec); reflexivity.
Qed.






(** The sign given to [binary_round_aux] is the sign of its result. *)
Lemma binary_round_aux_positive m e l :
  match binary_round_aux prec emax false m e l with
  | S754_zero s | S754_infinity s | S754_finite s _ _ => s = false
  | S754_nan => True
  end.
Proof.
  unfold binary_round_aux.
  destruct (shr_fexp prec emax m e l) as [mrs e1].
  destruct (shr_fexp prec emax _ e1 loc_Exact) as [mrs2 e2].
  destruct (shr_m mrs2); [reflexivity| |exact I].
  destruct (e2 <=? emax - prec); reflexivity.
Qed.

(** Half of a float that is not negative is not below a negative float. *)
Lemma half_not_below_negative (m cr : float) :
  SFltb m (S754_zero false) = false ->
  SFltb cr (S754_zero false) = true ->
  SFltb (SFdiv prec emax m (binary_normalize prec emax 2 0 false)) cr = false.
Proof.
  intros Hm Hcr.
  assert (Hneg : cr = S754_infinity true \/ exists mc ec, cr = S754_finite true mc ec).
  { destruct cr as [s|[]| |[] mc ec]; try discriminate Hcr; eauto. }
  change (binary_normalize prec emax 2 0 false)
    with (S754_finite false 8388608 (-22)).
  destruct m as [s|[]| |[] mm em]; try discriminate Hm.
  - destruct Hneg as [->|(mc & ec & ->)]; reflexivity.
  - destruct Hneg as [->|(mc & ec & ->)]; reflexivity.
  - reflexivity.
  - unfold SFdiv.
    destruct (SFdiv_core_binary prec emax (Z.pos mm) em 8388608 (-22))
      as [[mz ez] lz].
    change (xorb false false) with false.
    pose proof (binary_round_aux_positive mz ez lz) as Hs.
    destruct (binary_round_aux prec emax false mz ez lz) as [s|s| |s mr er];
      try subst s; destruct Hneg as [->|(mc & ec & ->)]; reflexivity.
Qed.


Lemma SFleb_zero_not_negative (x : float) :
  SFleb (S754_zero false) x = true -> SFltb x (S754_zero false) = false.
Proof. destruct x as [s|[]| |[] m e]; (discriminate || reflexivity). Qed.

(** Half of a float that is not negative is not negative. *)
Lemma half_not_negative (m : float) :
  SFltb m (S754_zero false) = false ->
  SFltb (SFdiv prec emax m (binary_normalize prec emax 2 0 false))
        (S754_zero false) = false.
Proof.
  intros Hm.
  change (binary_normalize prec emax 2 0 false)
    with (S754_finite false 8388608 (-22)).
  destruct m as [s|[]| |[] mm em]; try discriminate Hm; try reflexivity.
  unfold SFdiv.
  destruct (SFdiv_core_binary prec emax (Z.pos mm) em 8388608 (-22))
    as [[mz ez] lz].
  change (xorb false false) with false.
  pose proof (binary_round_aux_positive mz ez lz) as Hs.
  destruct (binary_round_aux prec emax false mz ez lz) as [s|s| |s mr er];
    try subst s; reflexivity.
Qed.

(** The quotient of a negative and a positive float is not positive. *)
Lemma SFdiv_negative_positive (a b : float) :
  SFltb a (S754_zero false) = true -> SFltb (S754_zero false) b = true ->
  SFltb (S754_zero false) (SFdiv prec emax a b) = false.
Proof.
  intros Ha Hb.
  destruct a as [sa|[]| |[] ma ea]; try discriminate Ha;
    destruct b as [sb|[]| |[] mb eb]; try discriminate Hb; try reflexivity.
  unfold SFdiv.
  destruct (SFdiv_core_binary prec emax (Z.pos ma) ea (Z.pos mb) eb)
    as [[mz ez] lz].
  change (xorb true false) with (negb false).
  rewrite <- SFopp_binary_round_aux.
  pose proof (binary_round_aux_positive mz ez lz) as Hs.
  destruct (binary_round_aux prec emax false mz ez lz) as [s|s| |s mr er];
    try subst s; reflexivity.
Qed.
End Binary32Facts.

(** ** Rounding to binary32

    [binary_round_aux] shifts the mantissa to the precision of the format
    ([shr_fexp]), rounds it to nearest even and shifts once more.  The lemmas
    below follow a positive mantissa through these steps, to tell when the
    result is not zero. *)

Module Binary32Round.
Import Binary32.

Lemma digits2_pos_bounds p :
  2 ^ (Z.pos (digits2_pos p) - 1) <= Z.pos p < 2 ^ Z.pos (digits2_pos p).
Proof.
  induction p as [p IH|p IH|]; simpl digits2_pos;
    rewrite ?Pos2Z.inj_succ.
  - replace (Z.succ (Z.pos (digits2_pos p)) - 1) with (Z.succ (Z.pos (digits2_pos p) - 1)) by lia.
    rewrite !Z.pow_succ_r by lia. lia.
  - replace (Z.succ (Z.pos (digits2_pos p)) - 1) with (Z.succ (Z.pos (digits2_pos p) - 1)) by lia.
    rewrite !Z.pow_succ_r by lia. lia.
  - simpl. lia.
Qed.

Lemma shr_1_nonneg m r s :
  0 <= m ->
  shr_1 (Build_shr_record m r s) = Build_shr_record (Z.div2 m) (Z.odd m) (r || s).
Proof. destruct m as [|[p|p|]|p]; intros Hm; try lia; reflexivity. Qed.

Lemma iter_pos_nat {A} (f : A -> A) p x :
  SpecFloat.iter_pos f p x = Nat.iter (Pos.to_nat p) f x.
Proof.
  revert x. induction p as [p IH|p IH|]; intros x; simpl SpecFloat.iter_pos.
  - rewrite !IH, Pos2Nat.inj_xI. simpl Nat.iter.
    rewrite Nat.add_0_r, Nat.iter_add, !Nat.iter_swap. reflexivity.
  - rewrite !IH, Pos2Nat.inj_xO. simpl Nat.mul.
    rewrite Nat.add_0_r, Nat.iter_add. reflexivity.
  - reflexivity.
Qed.

(** [k + 1] steps of [shr_1]: the mantissa is shifted, the round bit is the
    last bit shifted out, the sticky bit is set when a bit shifted out before
    was set. *)
Lemma shr_1_iter k m r s :
  0 <= m ->
  let mrs := Nat.iter (S k) shr_1 (Build_shr_record m r s) in
  shr_m mrs = Z.shiftr m (Z.of_nat (S k))
  /\ shr_r mrs = Z.testbit m (Z.of_nat k)
  /\ (forall j, 0 <= j < Z.of_nat k -> Z.testbit m j = true -> shr_s mrs = true).
Proof.
  intros Hm. induction k as [|k IH].
  - change (Nat.iter 1 shr_1 (Build_shr_record m r s))
      with (shr_1 (Build_shr_record m r s)).
    cbv zeta. rewrite shr_1_nonneg by exact Hm. cbn [shr_m shr_r shr_s].
    split; [apply Z.div2_spec|]. split; [symmetry; apply Z.bit0_odd|].
    intros j Hj. lia.
  - cbv zeta in IH. destruct IH as (Im & Ir & Is).
    change (Nat.iter (S (S k)) shr_1 (Build_shr_record m r s))
      with (shr_1 (Nat.iter (S k) shr_1 (Build_shr_record m r s))).
    destruct (Nat.iter (S k) shr_1 (Build_shr_record m r s)) as [m' r' s'].
    simpl in Im, Ir, Is.
    assert (Hm' : 0 <= m') by (rewrite Im; apply Z.shiftr_nonneg; exact Hm).
    rewrite shr_1_nonneg by exact Hm'. cbn [shr_m shr_r shr_s].
    split; [|split].
    + rewrite Im, Z.div2_spec, Z.shiftr_shiftr by lia. f_equal; lia.
    + rewrite Im, <- Z.bit0_odd, Z.shiftr_spec by lia. f_equal; lia.
    + intros j Hj Hb.
      destruct (Z.eq_dec j (Z.of_nat k)) as [->|Hne].
      * rewrite Ir, Hb. reflexivity.
      * rewrite (Is j) by (assumption || lia). apply orb_true_r.
Qed.

Lemma shr_spec m l e n :
  0 <= m ->
  (n <= 0 -> shr (shr_record_of_loc m l) e n = (shr_record_of_loc m l, e))
  /\ (0 < n ->
      exists mrs, shr (shr_record_of_loc m l) e n = (mrs, e + n)
        /\ shr_m mrs = Z.shiftr m n
        /\ shr_r mrs = Z.testbit m (n - 1)
        /\ (forall j, 0 <= j < n - 1 -> Z.testbit m j = true -> shr_s mrs = true)).
Proof.
  intros Hm. split.
  - intros Hn. destruct n; try lia; reflexivity.
  - intros Hn. destruct n as [|p|p]; try lia.
    unfold shr. rewrite iter_pos_nat.
    destruct (Pos2Nat.is_succ p) as (k & Ek). rewrite Ek.
    assert (Hr : exists r s, shr_record_of_loc m l = Build_shr_record m r s)
      by (destruct l as [|[]]; simpl; eauto).
    destruct Hr as (r & s & ->).
    destruct (shr_1_iter k m r s Hm) as (Im & Ir & Is).
    eexists. split; [reflexivity|].
    assert (Ep : Z.pos p = Z.of_nat (S k)) by lia.
    rewrite Ep. split; [exact Im|]. split.
    + rewrite Ir. f_equal; lia.
    + intros j Hj. apply Is. lia.
Qed.

Lemma fexp_eq x : fexp prec emax x = Z.max (x - 24) (-149).
Proof. reflexivity. Qed.

Lemma shr_fexp_nonneg m e l :
  0 <= m -> 0 <= shr_m (fst (shr_fexp prec emax m e l)).
Proof.
  intros Hm. unfold shr_fexp.
  set (n := fexp prec emax (Zdigits2 m + e) - e).
  destruct (shr_spec m l e n Hm) as [Hle Hgt].
  destruct (Z_le_gt_dec n 0) as [Hn|Hn].
  - rewrite (Hle Hn). simpl. destruct l as [|[]]; exact Hm.
  - destruct (Hgt ltac:(lia)) as (mrs & -> & Em & _). simpl.
    rewrite Em. apply Z.shiftr_nonneg. exact Hm.
Qed.

Lemma round_nearest_even_ge m l : m <= round_nearest_even m l.
Proof.
  destruct l as [|[]]; simpl; try lia. destruct (Z.even m); lia.
Qed.

(** Rounding a positive integer never gives NaN, and keeps the sign. *)
Lemma binary_round_aux_number s p e :
  number_with_sign s (binary_round_aux prec emax s (Z.pos p) e loc_Exact).
Proof.
  unfold binary_round_aux.
  pose proof (shr_fexp_nonneg (Z.pos p) e loc_Exact ltac:(lia)) as H1.
  destruct (shr_fexp prec emax (Z.pos p) e loc_Exact) as [mrs' e'].
  simpl in H1.
  pose proof (round_nearest_even_ge (shr_m mrs') (loc_of_shr_record mrs')) as Hr.
  pose proof (shr_fexp_nonneg
                (round_nearest_even (shr_m mrs') (loc_of_shr_record mrs'))
                e' loc_Exact ltac:(lia)) as H2.
  destruct (shr_fexp prec emax _ e' loc_Exact) as [mrs'' e''].
  simpl in H2.
  destruct (shr_m mrs'') as [|q|q]; [reflexivity| |lia].
  destruct (e'' <=? emax - prec); reflexivity.
Qed.

(** The second shift of [binary_round_aux] never loses a positive
    mantissa. *)
Lemma second_shift_pos m e :
  0 < m -> -149 <= e ->
  0 < shr_m (fst (shr_fexp prec emax m e loc_Exact)).
Proof.
  intros Hm He. unfold shr_fexp.
  destruct m as [|q|q]; try lia.
  set (d := Zdigits2 (Z.pos q)).
  assert (Hd : 2 ^ (d - 1) <= Z.pos q < 2 ^ d) by apply digits2_pos_bounds.
  assert (Hd1 : 1 <= d) by (subst d; simpl; lia).
  set (n := fexp prec emax (d + e) - e).
  destruct (shr_spec (Z.pos q) loc_Exact e n ltac:(lia)) as [Hle Hgt].
  destruct (Z_le_gt_dec n 0) as [Hn|Hn].
  - rewrite (Hle Hn). simpl. lia.
  - destruct (Hgt ltac:(lia)) as (mrs & -> & Em & _). simpl.
    rewrite Em, Z.shiftr_div_pow2 by lia.
    assert (En : n = d - 24) by (subst n; rewrite fexp_eq in *; lia).
    assert (Hp : 2 ^ n <= 2 ^ (d - 1)) by (apply Z.pow_le_mono_r; lia).
    assert (H2n : 0 < 2 ^ n) by (apply Z.pow_pos_nonneg; lia).
    apply (Z.lt_le_trans _ 1); [lia|].
    apply Z.div_le_lower_bound; lia.
Qed.

(** A positive integer of [d] digits with scale [e] rounds to something
    nonzero when [m * 2^e] is at least [2^-149], or lies in the binade below
    and is more than [2^-150]. *)
Lemma binary_round_aux_nonzero s p e :
  let d := Z.pos (digits2_pos p) in
  -148 <= d + e \/ (d + e = -149 /\ Z.pos p <> 2 ^ (d - 1)) ->
  nonzero_with_sign s (binary_round_aux prec emax s (Z.pos p) e loc_Exact).
Proof.
  intros d Hcond.
  assert (Hd : 2 ^ (d - 1) <= Z.pos p < 2 ^ d) by apply digits2_pos_bounds.
  assert (Hd1 : 1 <= d) by (subst d; lia).
  unfold binary_round_aux.
  assert (Hfirst : exists mrs' e',
             shr_fexp prec emax (Z.pos p) e loc_Exact = (mrs', e')
             /\ -149 <= e'
             /\ 0 < round_nearest_even (shr_m mrs') (loc_of_shr_record mrs')).
  { unfold shr_fexp. change (Zdigits2 (Z.pos p)) with d.
    set (n := fexp prec emax (d + e) - e).
    assert (Hn149 : -149 <= e + n) by (subst n; rewrite fexp_eq; lia).
    destruct (shr_spec (Z.pos p) loc_Exact e n ltac:(lia)) as [Hle Hgt].
    destruct (Z_le_gt_dec n 0) as [Hn|Hn].
    - rewrite (Hle Hn). do 2 eexists. split; [reflexivity|].
      split; [subst n; rewrite fexp_eq in *; lia|]. simpl. lia.
    - destruct (Hgt ltac:(lia)) as (mrs & -> & Em & Er & Es).
      do 2 eexists. split; [reflexivity|]. split; [exact Hn149|].
      pose proof (round_nearest_even_ge (shr_m mrs) (loc_of_shr_record mrs)) as Hge.
      assert (Hnd : n <= d) by (subst n; rewrite fexp_eq in *; lia).
      destruct (Z.eq_dec n d) as [End|Hlt].
      + (* the whole mantissa is shifted out: round bit and sticky bit are set *)
        assert (Hbound : d + e = -149) by (subst n; rewrite fexp_eq in *; lia).
        destruct Hcond as [Hc|[_ Hne]]; [lia|].
        assert (Hq : Z.pos p / 2 ^ (d - 1) = 1).
        { symmetry. apply Z.div_unique with (r := Z.pos p - 2 ^ (d - 1)).
          - left. replace (2 ^ d) with (2 * 2 ^ (d - 1)) in Hd
              by (rewrite <- Z.pow_succ_r by lia; f_equal; lia). lia.
          - lia. }
        assert (Htop : Z.testbit (Z.pos p) (d - 1) = true)
          by (apply Z.testbit_true; [lia|]; rewrite Hq; reflexivity).
        assert (Hlow : exists j, 0 <= j < d - 1 /\ Z.testbit (Z.pos p) j = true).
        { destruct (Z.eq_dec (Z.pos p mod 2 ^ (d - 1)) 0) as [E0|E0].
          - exfalso. apply Hne.
            pose proof (Z.div_mod (Z.pos p) (2 ^ (d - 1)) ltac:(lia)) as Hdm.
            rewrite Hq, E0 in Hdm. lia.
          - assert (Hpos : 0 < Z.pos p mod 2 ^ (d - 1)).
            { pose proof (Z.mod_pos_bound (Z.pos p) (2 ^ (d - 1)) ltac:(lia)). lia. }
            exists (Z.log2 (Z.pos p mod 2 ^ (d - 1))).
            pose proof (Z.mod_pos_bound (Z.pos p) (2 ^ (d - 1)) ltac:(lia)) as Hb.
            pose proof (Z.log2_nonneg (Z.pos p mod 2 ^ (d - 1))) as Hl0.
            assert (Hl : Z.log2 (Z.pos p mod 2 ^ (d - 1)) < d - 1)
              by (apply Z.log2_lt_pow2; lia).
            split; [lia|].
            rewrite <- (Z.mod_pow2_bits_low (Z.pos p) (d - 1)) by lia.
            apply Z.bit_log2. lia. }
        destruct Hlow as (j & Hj & Hbit).
        rewrite End in Er, Es.
        destruct mrs as [m' r' s']. cbn [shr_m shr_r shr_s] in *.
        rewrite Htop in Er. subst r'. rewrite (Es j Hj Hbit).
        cbn [loc_of_shr_record round_nearest_even].
        assert (0 <= m') by (rewrite Em; apply Z.shiftr_nonneg; lia).
        lia.
      + assert (Hpos : 0 < shr_m mrs).
        { rewrite Em, Z.shiftr_div_pow2 by lia.
          assert (Hp : 2 ^ n <= 2 ^ (d - 1)) by (apply Z.pow_le_mono_r; lia).
          assert (H2n : 0 < 2 ^ n) by (apply Z.pow_pos_nonneg; lia).
          apply (Z.lt_le_trans _ 1); [lia|].
          apply Z.div_le_lower_bound; lia. }
        lia. }
  destruct Hfirst as (mrs' & e' & -> & He' & Hm1).
  pose proof (second_shift_pos _ e' Hm1 He') as H2.
  destruct (shr_fexp prec emax _ e' loc_Exact) as [mrs'' e''].
  simpl in H2.
  destruct (shr_m mrs'') as [|q|q]; try lia.
  destruct (e'' <=? emax - prec); reflexivity.
Qed.

Lemma digits2_iter_xO p q :
  Z.pos (digits2_pos (Pos.iter xO p q)) = Z.pos (digits2_pos p) + Z.pos q.
Proof.
  induction q as [|q IH] using Pos.peano_ind.
  - simpl. lia.
  - rewrite Pos.iter_succ. simpl digits2_pos. lia.
Qed.

Lemma binary_round_nonzero s p e :
  -148 <= Z.pos (digits2_pos p) + e ->
  nonzero_with_sign s (binary_round prec emax s p e).
Proof.
  intros Hd. unfold binary_round, shl_align.
  destruct (fexp prec emax (Z.pos (digits2_pos p) + e) - e) as [|q|q] eqn:E;
    try (apply binary_round_aux_nonzero; left; exact Hd).
  apply binary_round_aux_nonzero. left.
  rewrite digits2_iter_xO. lia.
Qed.

(** [static_cast<float>(n)] of a positive [int] is a positive number. *)
Lemma of_int_positive n :
  1 <= n -> nonzero_with_sign false (binary_normalize prec emax n 0 false).
Proof.
  intros Hn. destruct n as [|p|p]; try lia.
  apply binary_round_nonzero.
  pose proof (Pos2Z.is_pos (digits2_pos p)). lia.
Qed.

Lemma nonzero_positive x :
  nonzero_with_sign false x -> SFltb (S754_zero false) x = true.
Proof. destruct x as [| | |s m e]; simpl; try contradiction; intros ->; reflexivity. Qed.

Lemma canonical_exponent m e :
  bounded prec emax m e = true ->
  e = Z.max (Z.pos (digits2_pos m) + e - 24) (-149).
Proof.
  unfold bounded, canonical_mantissa. intros Hb.
  apply andb_prop in Hb. destruct Hb as [Hc _].
  apply Z.eqb_eq in Hc. rewrite fexp_eq in Hc. lia.
Qed.

Lemma digits2_mul_lower a b :
  Z.pos (digits2_pos a) + Z.pos (digits2_pos b) - 1
  <= Z.pos (digits2_pos (a * b)).
Proof.
  pose proof (digits2_pos_bounds a) as Ha.
  pose proof (digits2_pos_bounds b) as Hb.
  pose proof (digits2_pos_bounds (a * b)) as Hab.
  set (da := Z.pos (digits2_pos a)) in *. set (db := Z.pos (digits2_pos b)) in *.
  set (dm := Z.pos (digits2_pos (a * b))) in *.
  assert (Hda : 1 <= da) by (subst da; lia).
  assert (Hdb : 1 <= db) by (subst db; lia).
  assert (Hlow : 2 ^ (da - 1 + (db - 1)) <= Z.pos (a * b)).
  { rewrite Z.pow_add_r, Pos2Z.inj_mul by lia.
    assert (0 < 2 ^ (da - 1)) by (apply Z.pow_pos_nonneg; lia).
    assert (0 < 2 ^ (db - 1)) by (apply Z.pow_pos_nonneg; lia). nia. }
  assert (Hlt : 2 ^ (da - 1 + (db - 1)) < 2 ^ dm) by lia.
  apply Z.pow_lt_mono_r_iff in Hlt; lia.
Qed.

(** The product of a positive finite float and a float above [1/2] does not
    underflow to zero. *)
Lemma SFmul_positive (r s : spec_float) mr er :
  r = S754_finite false mr er ->
  valid_binary prec emax r = true -> valid_binary prec emax s = true ->
  SFltb half s = true ->
  nonzero_with_sign false (SFmul prec emax r s).
Proof.
  intros -> Hr Hs Hlt. simpl in Hr.
  pose proof (canonical_exponent mr er Hr) as Er.
  destruct s as [ss|ss| |ss ms es]; try discriminate Hlt.
  - destruct ss; [discriminate Hlt | reflexivity].
  - destruct ss; [discriminate Hlt|].
    simpl in Hs. pose proof (canonical_exponent ms es Hs) as Es.
    unfold SFltb, half, SFcompare in Hlt.
    pose proof (digits2_mul_lower mr ms) as Hdm.
    pose proof (Pos2Z.is_pos (digits2_pos mr)) as Hdr.
    pose proof (Pos2Z.is_pos (digits2_pos ms)) as Hds.
    unfold SFmul. change (xorb false false) with false.
    apply binary_round_aux_nonzero. cbv zeta.
    destruct (Z.compare_spec (-24) es) as [E|E|E]; try discriminate Hlt.
    + (* es = -24: the mantissa of s exceeds 2^23 *)
      subst es.
      assert (Hms : 2 ^ 23 < Z.pos ms).
      { change (Pos.compare_cont Eq 8388608 ms) with (Pos.compare 8388608 ms) in Hlt.
        destruct (Pos.compare_spec 8388608 ms) as [E|E|E]; try discriminate Hlt.
        change (2 ^ 23) with (Z.pos 8388608). lia. }
      destruct (Z_le_gt_dec (-148) (Z.pos (digits2_pos (mr * ms)) + (er + -24)));
        [left; assumption|].
      right. split; [lia|].
      assert (Edm : Z.pos (digits2_pos (mr * ms)) = Z.pos (digits2_pos mr) + 23) by lia.
      rewrite Edm.
      pose proof (digits2_pos_bounds mr) as Hbr.
      replace (Z.pos (digits2_pos mr) + 23 - 1)
        with (Z.pos (digits2_pos mr) - 1 + 23) by lia.
      rewrite Z.pow_add_r, Pos2Z.inj_mul by lia.
      assert (0 < 2 ^ (Z.pos (digits2_pos mr) - 1)) by (apply Z.pow_pos_nonneg; lia).
      nia.
    + left. lia.
Qed.

Lemma SFmul_finite_number sr mr er (s : spec_float) :
  s <> S754_nan -> SFmul prec emax (S754_finite sr mr er) s <> S754_nan.
Proof.
  intros Hs. destruct s as [ss|ss| |ss ms es]; try discriminate; [congruence|].
  unfold SFmul.
  pose proof (binary_round_aux_number (xorb sr ss) (mr * ms) (er + es)) as Hn.
  intros E. rewrite E in Hn. exact Hn.
Qed.

Lemma SFabs_opp x : SFabs (SFopp x) = SFabs x.
Proof. destruct x; reflexivity. Qed.

Lemma SFabs_nan x : x <> S754_nan -> SFabs x <> S754_nan.
Proof. destruct x; intros Hx; (discriminate || congruence). Qed.

Lemma SFabs_not_negative x : SFltb (SFabs x) (S754_zero false) = false.
Proof. destruct x; reflexivity. Qed.

Lemma SFabs_positive s x :
  nonzero_with_sign s x -> SFltb (S754_zero false) (SFabs x) = true.
Proof. destruct x; simpl; (contradiction || reflexivity). Qed.

(** [std::max] of two floats that are numbers and not negative is positive
    when one of them is. *)
Lemma SFmax_positive (u v : spec_float) :
  u <> S754_nan -> v <> S754_nan ->
  SFltb u (S754_zero false) = false -> SFltb v (S754_zero false) = false ->
  SFltb (S754_zero false) u = true \/ SFltb (S754_zero false) v = true ->
  SFltb (S754_zero false) (if SFltb u v then v else u) = true.
Proof.
  intros Hu Hv Nu Nv Hpos.
  destruct u as [su|[]| |[] mu eu], v as [sv|[]| |[] mv ev];
    try congruence; try discriminate Nu; try discriminate Nv;
    try (destruct Hpos as [Hp|Hp]; discriminate Hp);
    try reflexivity.
  destruct (SFltb (S754_finite false mu eu) (S754_finite false mv ev));
    reflexivity.
Qed.
End Binary32Round.


(** ** Where the tabs and the fans sit in the output *)

Section FanLayout.
Context {F : Type} `{Scalar F}.
Variables (size_x size_y : F) (num_verts_x num_verts_y : Z).
Variables (corner_radius : F) (corner_verts : Z) (corner_mask : CornerMask.t).

Let niy := num_interior_verts_y num_verts_y corner_verts.
Let nix := num_interior_verts_x num_verts_x corner_verts.
Let out := quad_vertices size_x size_y num_verts_x num_verts_y corner_radius
             corner_verts corner_mask.

Hypothesis Hcv : 0 < corner_verts.
Hypothesis Hnix : 0 <= nix.
Hypothesis Hniy : 0 <= niy.

Lemma quad_vertices_rounded :
  out = left_tab_vertices size_x size_y num_verts_y corner_radius corner_verts
        ++ (seqZ 0 nix ≫= column_vertices size_x size_y num_verts_x
                             num_verts_y corner_radius corner_verts)
        ++ right_tab_vertices size_x size_y num_verts_y corner_radius
             corner_verts
        ++ (seqZ 0 corner_verts
              ≫= fan_step_vertices size_x size_y corner_radius corner_verts
                   corner_mask).
Proof.
  subst out. unfold quad_vertices.
  destruct (Z.ltb_spec 0 corner_verts); [reflexivity | lia].
Qed.

Lemma length_left_tab_vertices :
  length (left_tab_vertices size_x size_y num_verts_y corner_radius corner_verts)
  = Z.to_nat niy.
Proof. unfold left_tab_vertices. rewrite length_fmap, length_seqZ. reflexivity. Qed.

Lemma length_right_tab_vertices :
  length (right_tab_vertices size_x size_y num_verts_y corner_radius corner_verts)
  = Z.to_nat niy.
Proof. unfold right_tab_vertices. rewrite length_fmap, length_seqZ. reflexivity. Qed.

Lemma length_columns :
  length (seqZ 0 nix ≫= column_vertices size_x size_y num_verts_x
                           num_verts_y corner_radius corner_verts)
  = Z.to_nat (nix * (niy + 2)).
Proof.
  rewrite (length_bind_const _ _ _
             (length_column_vertices size_x size_y num_verts_x num_verts_y
                corner_radius corner_verts)), length_seqZ.
  fold niy. destruct (Z.ltb_spec 0 corner_verts); [|lia].
  apply Nat2Z.inj. rewrite Nat2Z.inj_mul, Nat2Z.inj_add, !Z2Nat.id by nia.
  simpl. lia.
Qed.

Lemma fan_base_split :
  fan_base num_verts_x num_verts_y corner_verts
  = (Z.to_nat niy + (Z.to_nat (nix * (niy + 2)) + Z.to_nat niy))%nat.
Proof. unfold fan_base. fold nix niy. rewrite !Z2Nat.inj_add by nia. lia. Qed.


(** Fan vertex [k] of angle step [i] sits at [fan_base + 4 i + k]. *)
Lemma lookup_fan (i : Z) (k : nat) :
  0 <= i < corner_verts -> (k < 4)%nat ->
  out !! (fan_base num_verts_x num_verts_y corner_verts + 4 * Z.to_nat i + k)%nat
  = fan_step_vertices size_x size_y corner_radius corner_verts corner_mask i !! k.
Proof.
  intros Hi Hk. rewrite quad_vertices_rounded, fan_base_split.
  rewrite lookup_app_r by (rewrite length_left_tab_vertices; lia).
  rewrite lookup_app_r by (rewrite length_left_tab_vertices, length_columns; lia).
  rewrite lookup_app_r
    by (rewrite length_left_tab_vertices, length_columns,
          length_right_tab_vertices; lia).
  rewrite length_left_tab_vertices, length_columns, length_right_tab_vertices.
  replace (_ - _ - _ - _)%nat with (Z.to_nat i * 4 + k)%nat by lia.
  rewrite (lookup_bind_const _ 4%nat _ _ _ (0 + Z.of_nat (Z.to_nat i)));
    [|reflexivity| |assumption].
  - rewrite Z2Nat.id by lia. reflexivity.
  - apply lookup_seqZ_lt. lia.
Qed.

Lemma length_rounded :
  length out
  = (fan_base num_verts_x num_verts_y corner_verts + 4 * Z.to_nat corner_verts)%nat.
Proof.
  rewrite quad_vertices_rounded, fan_base_split, !length_app.
  rewrite length_left_tab_vertices, length_columns, length_right_tab_vertices.
  rewrite (length_bind_const _ 4%nat) by reflexivity.
  rewrite length_seqZ. lia.
Qed.
End FanLayout.

Section FanOrder.
Context {F : Type} `{Scalar F}.
Local Open Scope float_scope.


End FanOrder.


(** ** Rotational symmetry of the fans of a square quad *)

Section FanSymmetry.
Import Binary32 Binary32Facts.
Variables libm_sinf libm_cosf : float -> float.
Let b32 : Scalar float := ops libm_sinf libm_cosf.
Existing Instance b32.

End FanSymmetry.


(** ** A masked corner with radius zero *)

Section ZeroRadius.
Import Binary32 Binary32Facts.
Variables libm_sinf libm_cosf : float -> float.
Let b32 : Scalar float := ops libm_sinf libm_cosf.
Existing Instance b32.

Let two : float := lit 2 1.
Let zero : float := lit 0 1.

Lemma zero_radius_accepted : accepted two two 4 4 zero 1 no_top_left.
Proof. apply accepted_iff. repeat split; reflexivity. Qed.

Lemma zero_radius_clamp : clamp_radius two two zero = S754_zero false.
Proof. reflexivity. Qed.

(** Whatever [sinf] and [cosf] return, the top-left offset of the single
    angle step is [(NaN, NaN)]: both components of the arc offset are zeros
    or NaN, so [unround_corner] scales by [0/0] or by a NaN. *)
Lemma zero_radius_offset :
  ul_offset (S754_zero false) 1 no_top_left 0 = Vec2 nan nan.
Proof.
  unfold ul_offset, unround_corner, r_sin_theta, r_cos_theta.
  change (corner_off no_top_left CornerMask.kTopLeft) with true.
  cbv iota zeta.
  set (s := sinf (theta 1 0)). set (c := cosf (theta 1 0)). clearbody s c.
  destruct s as [[]|[]| |[] ms es], c as [[]|[]| |[] mc ec]; reflexivity.
Qed.

Lemma zero_radius_vertex :
  CalculateTesselatedQuadVertices two two 4 4 zero 1 no_top_left
    !! (fan_base 4 4 1 + 4 * 0 + 1)%nat
  = Some (MkVertex (Vec3 nan nan (S754_zero false)) (Vec2 nan nan)).
Proof.
  rewrite (CalculateTesselatedQuadVertices_layout _ _ _ _ _ _ _
             zero_radius_accepted).
  rewrite zero_radius_clamp.
  change (4 * 0)%nat with (4 * Z.to_nat 0)%nat.
  rewrite (lookup_fan two two 4 4 (S754_zero false) 1 no_top_left
             ltac:(lia) ltac:(vm_compute; discriminate)
             ltac:(vm_compute; discriminate) 0 1) by lia.
  unfold fan_step_vertices. simpl lookup.
  rewrite zero_radius_offset. reflexivity.
Qed.

(** C4, at the failing input.  [size = 2 x 2], [4 x 4] vertices,
    [corner_radius = 0], [corner_verts = 1], top-left corner masked off: the
    call is accepted, the clamped radius is [+0], and the offset of the
    top-left fan vertex from its anchor is [(NaN, NaN)], so
    [max(|dx|, |dy|) == corner_radius] is false and the vertex position is
    NaN.  This holds for every [sinf] and [cosf]. *)
Theorem masked_corner_zero_radius_position :
  accepted (lit 2 1) (lit 2 1) 4 4 (lit 0 1) 1 no_top_left
  /\ clamp_radius (lit 2 1) (lit 2 1) (lit 0 1) = S754_zero false
  /\ (let d := ul_offset (S754_zero false) 1 no_top_left 0 in
      d = Vec2 nan nan
      /\ SFeqb (std_max (fabsf (vx d)) (fabsf (vy d))) (S754_zero false) = false)
  /\ pos <$> CalculateTesselatedQuadVertices (lit 2 1) (lit 2 1) 4 4 (lit 0 1) 1
                no_top_left !! (fan_base 4 4 1 + 4 * 0 + 1)%nat
     = Some (Vec3 nan nan (S754_zero false)).
Proof.
  split; [exact zero_radius_accepted|]. split; [exact zero_radius_clamp|].
  split.
  - cbv zeta. rewrite zero_radius_offset. split; reflexivity.
  - fold two zero. rewrite zero_radius_vertex. reflexivity.
Qed.

(** C6, at the failing input.  Same call as above ([size_x = size_y = 2 > 0],
    [corner_radius = 0 >= 0]): the texture coordinate of the top-left fan
    vertex is [(NaN, NaN)], which is not in [0, 1] x [0, 1]. *)
Theorem masked_corner_zero_radius_texcoord :
  SFltb (lit 0 1) (lit 2 1) = true
  /\ SFleb (lit 0 1) (lit 0 1) = true
  /\ accepted (lit 2 1) (lit 2 1) 4 4 (lit 0 1) 1 no_top_left
  /\ exists v,
       CalculateTesselatedQuadVertices (lit 2 1) (lit 2 1) 4 4 (lit 0 1) 1
         no_top_left !! (fan_base 4 4 1 + 4 * 0 + 1)%nat = Some v
       /\ uv0 v = Vec2 nan nan
       /\ in_range (lit 0 1) (lit 1 1) (vx (uv0 v)) = false
       /\ in_range (lit 0 1) (lit 1 1) (vy (uv0 v)) = false.
Proof.
  split; [reflexivity|]. split; [reflexivity|].
  split; [exact zero_radius_accepted|].
  eexists. split; [exact zero_radius_vertex|]. repeat split.
Qed.
End ZeroRadius.

(** ** Rounding at the end of the arc *)

Section ArcEnd.
Import Binary32 Binary32Facts.
Variables libm_sinf libm_cosf : float -> float.
Let b32 : Scalar float := ops libm_sinf libm_cosf.
Existing Instance b32.

(** The last angle of every fan is [(float)M_PI / 2]. *)
Lemma theta_last : theta 1 0 = S754_finite false 13176795 (-23).
Proof. reflexivity. Qed.

(** The inset [r / size_x] and the scaled offset [r * (1 / size_x)] are
    rounded differently.  For a 14 x 14 quad with radius 3, one vertex per
    corner and all corners enabled, a C library with
    [sinf((float)M_PI / 2) == 1.0f] makes the [u] coordinate of the
    bottom-left fan vertex [-2^-26], just below 0. *)
Lemma fan_texcoord_rounds_below_zero :
  libm_sinf (S754_finite false 13176795 (-23)) = lit 1 1 ->
  exists v,
    CalculateTesselatedQuadVertices (lit 14 1) (lit 14 1) 4 4 (lit 3 1) 1
      CornerMask.kAll !! (fan_base 4 4 1 + 4 * 0 + 0)%nat = Some v
    /\ vx (uv0 v) = S754_finite true 8388608 (-49)
    /\ SFltb (vx (uv0 v)) (S754_zero false) = true.
Proof.
  intros Hsin.
  assert (Hacc : accepted (lit 14 1) (lit 14 1) 4 4 (lit 3 1) 1 CornerMask.kAll)
    by (apply accepted_iff; repeat split; reflexivity).
  rewrite (CalculateTesselatedQuadVertices_layout _ _ _ _ _ _ _ Hacc).
  change (4 * 0)%nat with (4 * Z.to_nat 0)%nat.
  rewrite (lookup_fan (lit 14 1) (lit 14 1) 4 4 _ 1 CornerMask.kAll
             ltac:(lia) ltac:(vm_compute; discriminate)
             ltac:(vm_compute; discriminate) 0 0) by lia.
  eexists. split; [reflexivity|].
  unfold fan_vertex, ll_offset, r_sin_theta, r_cos_theta.
  change (corner_off CornerMask.kAll CornerMask.kBottomLeft) with false.
  rewrite theta_last. cbn [sinf b32 ops]. rewrite Hsin.
  split; reflexivity.
Qed.
End ArcEnd.

(** ** The plain grid ([corner_verts = 0]) *)

Section GridLayout.
Context {F : Type} `{Scalar F}.
Variables (size_x size_y : F) (num_verts_x num_verts_y : Z).
Variables (corner_radius : F) (corner_mask : CornerMask.t).

(** Column-major addressing: vertex [(x, y)] of the grid is entry
    [x * num_verts_y + y]. *)
Lemma lookup_grid (x y : Z) :
  0 <= x < num_verts_x -> 0 <= y < num_verts_y ->
  quad_vertices size_x size_y num_verts_x num_verts_y corner_radius 0 corner_mask
    !! (Z.to_nat x * Z.to_nat num_verts_y + Z.to_nat y)%nat
  = Some (interior_vertex size_x size_y num_verts_x num_verts_y corner_radius 0 x y).
Proof.
  intros Hx Hy. unfold quad_vertices. simpl. rewrite app_nil_r.
  rewrite (lookup_bind_const _ (Z.to_nat num_verts_y) _ _ _ (0 + Z.of_nat (Z.to_nat x))).
  - unfold column_vertices. simpl. rewrite app_nil_r, list_lookup_fmap.
    change (num_interior_verts_y num_verts_y 0) with num_verts_y.
    rewrite lookup_seqZ_lt by lia. simpl. rewrite !Z2Nat.id by lia. reflexivity.
  - intros a. rewrite length_column_vertices. reflexivity.
  - apply lookup_seqZ_lt. change (num_interior_verts_x num_verts_x 0) with num_verts_x.
    lia.
  - lia.
Qed.
End GridLayout.

(** ** A radius together with [corner_verts = 0] *)

Section ShrunkGrid.
Import Binary32 Binary32Facts.
Variables libm_sinf libm_cosf : float -> float.
Let b32 : Scalar float := ops libm_sinf libm_cosf.
Existing Instance b32.
Local Open Scope float_scope.

(** The clamped radius is not negative when the request is not. *)
Lemma clamp_not_negative (sx sy cr : float) :
  SFltb sx (S754_zero false) = false ->
  SFltb sy (S754_zero false) = false ->
  SFltb cr (S754_zero false) = false ->
  SFltb (clamp_radius sx sy cr) (S754_zero false) = false.
Proof.
  intros Hx Hy Hc. unfold clamp_radius.
  assert (Hmin : SFltb (std_min sx sy) (S754_zero false) = false)
    by (unfold std_min; simpl; destruct (SFltb sy sx); assumption).
  unfold std_min at 1.
  destruct (std_min sx sy / f2 <? cr) eqn:E; [|exact Hc].
  apply half_not_negative. exact Hmin.
Qed.

(** When a size is zero, the clamp turns a positive radius into a zero, and
    the interior size is the size. *)
Lemma zero_size_zero_radius (sx sy cr : float) :
  SFltb (S754_zero false) cr = true ->
  SFleb (S754_zero false) sx = true -> SFleb (S754_zero false) sy = true ->
  SFeqb sx (S754_zero false) = true \/ SFeqb sy (S754_zero false) = true ->
  let r := clamp_radius sx sy cr in
  SFeqb r (S754_zero false) = true
  /\ same_value (interior_size_x sx r) sx
  /\ same_value (interior_size_y sy r) sy.
Proof.
  intros Hc Hx Hy Hz.
  assert (Hcr : cr = S754_infinity false \/ exists m e, cr = S754_finite false m e)
    by (destruct cr as [s|[]| |[] m e]; try discriminate Hc; eauto).
  assert (Hr : exists s, clamp_radius sx sy cr = S754_zero s).
  { destruct sx as [s1|[]| |[] m1 e1]; try discriminate Hx;
      destruct sy as [s2|[]| |[] m2 e2]; try discriminate Hy;
      try (destruct Hz as [Hz|Hz]; discriminate Hz);
      destruct Hcr as [->|(m & e & ->)];
      solve [destruct s1; eexists; reflexivity
            | destruct s2; eexists; reflexivity
            | destruct s1, s2; eexists; reflexivity]. }
  destruct Hr as (s & Er). cbv zeta. rewrite Er.
  split; [reflexivity|].
  split.
  - destruct sx as [s1|[]| |[] m1 e1]; try discriminate Hx;
      destruct s; try destruct s1;
      solve [left; reflexivity | right; eauto].
  - destruct sy as [s2|[]| |[] m2 e2]; try discriminate Hy;
      destruct s; try destruct s2;
      solve [left; reflexivity | right; eauto].
Qed.

(** C8, amended.  With [corner_verts = 0], [corner_radius > 0], sizes [>= 0]
    and at least 2 x 2 vertices the call is accepted and returns the
    [num_verts_x * num_verts_y] grid (column-major, not empty; the call
    returns it when the count fits into an [int]).  The position of vertex
    [(x, y)] is computed from the interior sizes [wx = size_x - 2 r] and
    [wy = size_y - 2 r], [r] the clamped radius, in [float] arithmetic:
    [(x / (num_verts_x - 1) * wx - wx / 2, y / (num_verts_y - 1) * wy - wy / 2, 0)].
    [r] is not negative.  When a size is zero, [r] is zero and the interior
    sizes are the sizes: the grid is the one of the full rectangle. *)
Theorem radius_without_fans_grid (sx sy : float) nx ny (cr : float) mask :
  SFltb (S754_zero false) cr = true ->
  SFleb (S754_zero false) sx = true -> SFleb (S754_zero false) sy = true ->
  (2 <= nx)%Z -> (2 <= ny)%Z ->
  let out := CalculateTesselatedQuadVertices sx sy nx ny cr 0 mask in
  let r := clamp_radius sx sy cr in
  let wx := sx - f2 * r in
  let wy := sy - f2 * r in
  accepted sx sy nx ny cr 0 mask
  /\ Z.of_nat (length out) = (nx * ny)%Z
  /\ out <> []
  /\ ((nx * ny <= Int32.max_int)%Z ->
      CalculateTesselatedQuadVertices_int32 sx sy nx ny cr 0 mask
      = Returned None out)
  /\ (forall x y, (0 <= x < nx)%Z -> (0 <= y < ny)%Z ->
      pos <$> out !! (Z.to_nat x * Z.to_nat ny + Z.to_nat y)%nat
      = Some (Vec3 ((of_int x / of_int (nx - 1)) * wx - wx / f2)
                   ((of_int y / of_int (ny - 1)) * wy - wy / f2)
                   f0))
  /\ SFltb r (S754_zero false) = false
  /\ (SFeqb sx (S754_zero false) = true \/ SFeqb sy (S754_zero false) = true ->
      SFeqb r (S754_zero false) = true /\ same_value wx sx /\ same_value wy sy).
Proof.
  intros Hcr Hsx Hsy Hnx Hny out r wx wy.
  pose proof (SFleb_zero_not_negative _ Hsx) as Hsx'.
  pose proof (SFleb_zero_not_negative _ Hsy) as Hsy'.
  assert (Hc : check_vertex_counts nx ny 0 = None)
    by (apply check_vertex_counts_None; right; lia).
  assert (Hacc : accepted sx sy nx ny cr 0 mask)
    by (apply accepted_iff; repeat split; assumption).
  assert (Hlen : Z.of_nat (length out) = (nx * ny)%Z).
  { subst out. rewrite (accepted_length _ _ _ _ _ _ _ Hacc).
    unfold num_verts.
    change (num_interior_verts_x nx 0) with nx.
    change (num_interior_verts_y ny 0) with ny.
    change (num_corner_verts nx ny 0) with 0%Z.
    rewrite Z2Nat.id by nia. lia. }
  assert (Hout : out = quad_vertices sx sy nx ny r 0 mask)
    by (apply CalculateTesselatedQuadVertices_layout; exact Hacc).
  split; [exact Hacc|]. split; [exact Hlen|].
  split; [apply accepted_nonempty; exact Hacc|].
  split; [|split; [|split]].
  - intros Hfit.
    apply (int32_returns sx sy nx ny cr 0 mask Hacc).
    unfold exact_count.
    change (num_interior_verts_x nx 0) with nx.
    change (num_interior_verts_y ny 0) with ny.
    change (num_corner_verts nx ny 0) with 0%Z. lia.
  - intros x y Hx Hy. rewrite Hout, lookup_grid by assumption. reflexivity.
  - apply clamp_not_negative; try assumption.
    destruct cr as [s|[]| |[] m e]; try discriminate Hcr; reflexivity.
  - intros Hz. apply (zero_size_zero_radius sx sy cr); assumption.
Qed.
End ShrunkGrid.

Lemma radius_without_fans_grid_witness :
  Z.of_nat (length (CalculateTesselatedQuadVertices (H := Binary32.poly_ops)
                      (Binary32.lit 2 1) (Binary32.lit 2 1) 3 2
                      (Binary32.lit 1 2) 0 CornerMask.kAll)) = (3 * 2)%Z.
Proof.
  apply (radius_without_fans_grid Binary32.poly_sinf Binary32.poly_cosf
           (Binary32.lit 2 1) (Binary32.lit 2 1) 3 2 (Binary32.lit 1 2)
           CornerMask.kAll); (reflexivity || lia).
Defined.

(** C8, counterexamples.  [size_x = 2], [size_y = 0], [corner_radius = 1],
    [corner_verts = 0], 2 x 2 vertices: the clamp gives radius 0, so the grid
    reaches [x = -1] and [x = 1], the full width of the quad, and the
    interior rectangle is the full one.  [size_x = size_y = 1000],
    [corner_radius = 1/100000]: the radius stays as it is and is positive,
    but [1000 - 2 r] rounds to 1000, and the grid is again the one of the
    full rectangle, from -500 to 500. *)
Lemma radius_without_fans_full_rectangle :
  (let sx := Binary32.lit 2 1 in
   let sy := Binary32.lit 0 1 in
   let cr := Binary32.lit 1 1 in
   let one := Binary32.lit 1 1 in
   let zero := S754_zero false in
   SFltb zero cr = true /\ SFleb zero sx = true /\ SFleb zero sy = true
   /\ clamp_radius (H := Binary32.poly_ops) sx sy cr = zero
   /\ pos <$> CalculateTesselatedQuadVertices (H := Binary32.poly_ops)
                sx sy 2 2 cr 0 CornerMask.kAll
      = [Vec3 (SFopp one) zero zero; Vec3 (SFopp one) zero zero;
         Vec3 one zero zero; Vec3 one zero zero]
   /\ half_size_x (H := Binary32.poly_ops) sx = one
   /\ half_size_y (H := Binary32.poly_ops) sy = zero)
  /\ (let s := Binary32.lit 1000 1 in
      let cr := Binary32.lit 1 100000 in
      let h := Binary32.lit 500 1 in
      let zero := S754_zero false in
      SFltb zero cr = true /\ SFleb zero s = true
      /\ clamp_radius (H := Binary32.poly_ops) s s cr = cr
      /\ interior_size_x (H := Binary32.poly_ops) s cr = s
      /\ interior_size_y (H := Binary32.poly_ops) s cr = s
      /\ pos <$> CalculateTesselatedQuadVertices (H := Binary32.poly_ops)
                   s s 2 2 cr 0 CornerMask.kAll
         = [Vec3 (SFopp h) (SFopp h) zero; Vec3 (SFopp h) h zero;
            Vec3 h (SFopp h) zero; Vec3 h h zero]
      /\ half_size_x (H := Binary32.poly_ops) s = h).
Proof. split; repeat split. Qed.

(** ** A negative corner radius *)

Section NegativeRadiusBinary32.
Import Binary32 Binary32Facts.
Variables libm_sinf libm_cosf : float -> float.
Let b32 : Scalar float := ops libm_sinf libm_cosf.
Existing Instance b32.

(** In binary32 too, the clamp hands a negative radius through unchanged
    whenever the sizes pass the test of line 73. *)
Lemma negative_radius_unclamped (sx sy cr : float) :
  SFltb sx (S754_zero false) = false ->
  SFltb sy (S754_zero false) = false ->
  SFltb cr (S754_zero false) = true ->
  clamp_radius sx sy cr = cr.
Proof.
  intros Hx Hy Hc. unfold clamp_radius.
  assert (Hmin : SFltb (std_min sx sy) (S754_zero false) = false)
    by (unfold std_min; simpl; destruct (SFltb sy sx); assumption).
  pose proof (half_not_below_negative _ _ Hmin Hc) as E.
  unfold std_min at 1.
  change (flt (fdiv (std_min sx sy) f2) cr)
    with (SFltb (SFdiv prec emax (std_min sx sy)
                   (binary_normalize prec emax 2 0 false)) cr).
  rewrite E. reflexivity.
Qed.
End NegativeRadiusBinary32.

Section NegativeRadiusUsed.
Import Binary32 Binary32Facts.
Variables libm_sinf libm_cosf : float -> float.
Let b32 : Scalar float := ops libm_sinf libm_cosf.
Existing Instance b32.
Local Open Scope float_scope.

(** C9, amended.  With [corner_radius < 0], sizes [>= 0] and vertex counts
    that pass validation, the call is accepted and the result is not empty
    (the call returns it when the count fits into an [int]).  The clamp
    leaves the negative radius as it is, and the vertices are computed from
    it: the interior extents are [size - 2 corner_radius] and the texture
    insets are [corner_radius / size], in [float] arithmetic.  For a positive
    size the inset is never positive. *)
Theorem negative_radius_is_used (sx sy : float) nx ny (cr : float) cv mask :
  SFltb cr (S754_zero false) = true ->
  SFleb (S754_zero false) sx = true -> SFleb (S754_zero false) sy = true ->
  check_vertex_counts nx ny cv = None ->
  let out := CalculateTesselatedQuadVertices sx sy nx ny cr cv mask in
  let r := clamp_radius sx sy cr in
  accepted sx sy nx ny cr cv mask
  /\ out <> []
  /\ ((exact_count nx ny cv <= Int32.max_int)%Z ->
      CalculateTesselatedQuadVertices_int32 sx sy nx ny cr cv mask
      = Returned None out)
  /\ r = cr
  /\ out = quad_vertices sx sy nx ny cr cv mask
  /\ interior_size_x sx r = sx - f2 * cr
  /\ interior_size_y sy r = sy - f2 * cr
  /\ u_texture_inset sx r = cr / sx
  /\ v_texture_inset sy r = cr / sy
  /\ (SFltb (S754_zero false) sx = true ->
      SFltb (S754_zero false) (u_texture_inset sx r) = false)
  /\ (SFltb (S754_zero false) sy = true ->
      SFltb (S754_zero false) (v_texture_inset sy r) = false).
Proof.
  intros Hcr Hsx Hsy Hc out r.
  pose proof (SFleb_zero_not_negative _ Hsx) as Hsx'.
  pose proof (SFleb_zero_not_negative _ Hsy) as Hsy'.
  assert (Hacc : accepted sx sy nx ny cr cv mask)
    by (apply accepted_iff; repeat split; assumption).
  assert (Hr : r = cr)
    by (apply (negative_radius_unclamped libm_sinf libm_cosf); assumption).
  assert (Hout : out = quad_vertices sx sy nx ny r cv mask)
    by (apply CalculateTesselatedQuadVertices_layout; exact Hacc).
  split; [exact Hacc|].
  split; [apply accepted_nonempty; exact Hacc|].
  split; [intros Hfit; apply (int32_returns sx sy nx ny cr cv mask Hacc Hfit)|].
  split; [exact Hr|].
  rewrite Hr in *.
  split; [exact Hout|].
  do 4 (split; [reflexivity|]).
  split; intros Hpos; apply SFdiv_negative_positive; assumption.
Qed.
End NegativeRadiusUsed.

Lemma negative_radius_is_used_witness :
  clamp_radius (H := Binary32.poly_ops)
    (Binary32.lit 2 1) (Binary32.lit 2 1) (Binary32.lit (-1) 1)
  = Binary32.lit (-1) 1.
Proof.
  apply (negative_radius_is_used Binary32.poly_sinf Binary32.poly_cosf
           (Binary32.lit 2 1) (Binary32.lit 2 1) 2 2 (Binary32.lit (-1) 1) 0
           CornerMask.kAll); reflexivity.
Defined.

(** C9, counterexamples.  [size_x = size_y = 1000] with
    [corner_radius = -1/100000]: [1000 + 2/100000] rounds to 1000, the
    interior extent is the size and not larger.  [size_x = size_y = 4] with
    the largest negative float, [-2^-149]: the extent is the size, the inset
    [corner_radius / size] rounds to [-0], which is not negative, and the
    2 x 2 grid is the one of radius 0, with texture coordinates 0 and 1. *)
Lemma negative_radius_absorbed :
  (let s := Binary32.lit 1000 1 in
   let cr := Binary32.lit (-1) 100000 in
   let zero := S754_zero false in
   SFltb cr zero = true /\ SFleb zero s = true
   /\ clamp_radius (H := Binary32.poly_ops) s s cr = cr
   /\ interior_size_x (H := Binary32.poly_ops) s cr = s
   /\ interior_size_y (H := Binary32.poly_ops) s cr = s)
  /\ (let s := Binary32.lit 4 1 in
      let cr := S754_finite true 1 (-149) in
      let zero := S754_zero false in
      let one := Binary32.lit 1 1 in
      valid_binary Binary32.prec Binary32.emax cr = true
      /\ SFltb cr zero = true /\ SFleb zero s = true
      /\ clamp_radius (H := Binary32.poly_ops) s s cr = cr
      /\ interior_size_x (H := Binary32.poly_ops) s cr = s
      /\ interior_size_y (H := Binary32.poly_ops) s cr = s
      /\ u_texture_inset (H := Binary32.poly_ops) s cr = S754_zero true
      /\ v_texture_inset (H := Binary32.poly_ops) s cr = S754_zero true
      /\ SFltb (S754_zero true) zero = false
      /\ CalculateTesselatedQuadVertices (H := Binary32.poly_ops)
           s s 2 2 cr 0 CornerMask.kAll
         = CalculateTesselatedQuadVertices (H := Binary32.poly_ops)
             s s 2 2 zero 0 CornerMask.kAll
      /\ uv0 <$> CalculateTesselatedQuadVertices (H := Binary32.poly_ops)
                   s s 2 2 cr 0 CornerMask.kAll
         = [Vec2 zero one; Vec2 zero zero; Vec2 one one; Vec2 one zero]).
Proof. split; repeat split. Qed.

(** ** Divisors *)

Section Divisors.
Import Binary32 Binary32Facts Binary32Round.
Variables libm_sinf libm_cosf : float -> float.
Let b32 : Scalar float := ops libm_sinf libm_cosf.
Existing Instance b32.
Local Open Scope float_scope.

(** [max(|a|, |b|)], with either argument negated or not, is positive when
    [a] and [b] are numbers and one of them is not zero. *)
Lemma max_abs_positive (a b a' b' : float) sa sb :
  a <> nan -> b <> nan ->
  nonzero_with_sign sa a \/ nonzero_with_sign sb b ->
  (a' = a \/ a' = SFopp a) -> (b' = b \/ b' = SFopp b) ->
  SFltb (S754_zero false) (std_max (fabsf a') (fabsf b')) = true
  /\ SFltb (S754_zero false) (std_max (fabsf b') (fabsf a')) = true.
Proof.
  intros Ha Hb Hnz Ea Eb.
  assert (Eabs_a : SFabs a' = SFabs a)
    by (destruct Ea as [->| ->]; [reflexivity | apply SFabs_opp]).
  assert (Eabs_b : SFabs b' = SFabs b)
    by (destruct Eb as [->| ->]; [reflexivity | apply SFabs_opp]).
  change (fabsf a') with (SFabs a'). change (fabsf b') with (SFabs b').
  rewrite Eabs_a, Eabs_b.
  change (std_max (SFabs a) (SFabs b))
    with (if SFltb (SFabs a) (SFabs b) then SFabs b else SFabs a).
  change (std_max (SFabs b) (SFabs a))
    with (if SFltb (SFabs b) (SFabs a) then SFabs a else SFabs b).
  split; apply SFmax_positive;
    try (apply SFabs_nan; assumption); try apply SFabs_not_negative.
  - destruct Hnz as [H|H]; [left | right]; exact (SFabs_positive _ _ H).
  - destruct Hnz as [H|H]; [right | left]; exact (SFabs_positive _ _ H).
Qed.

(** C10, amended.  On accepted input the denominators of the grid fractions,
    [num_interior_verts_x - 1] and [num_interior_verts_y - 1], are at least 1,
    and their conversions to [float] are positive.  When the clamped radius
    [r] is a positive finite float, the divisor [max(|offset.x|, |offset.y|)]
    of [unround_corner] is positive for each of the four arc offsets of an
    angle step at which [sinf] and [cosf] return numbers of which one is
    above [0.5f] (as the sine and the cosine are on [(0, pi/2]]): the
    products [r * sinf(theta)] and [r * cosf(theta)] are numbers, and one of
    them does not round to zero.  ([valid_binary] holds of every [float]; the
    divisors [size_x] and [size_y] are not part of the statement.) *)
Theorem listed_divisors_nonzero (sx sy : float) nx ny (cr : float) cv mask :
  accepted sx sy nx ny cr cv mask ->
  let r := clamp_radius sx sy cr in
  let zero := S754_zero false in
  (1 <= num_interior_verts_x nx cv - 1)%Z
  /\ (1 <= num_interior_verts_y ny cv - 1)%Z
  /\ SFltb zero (of_int (num_interior_verts_x nx cv - 1)) = true
  /\ SFltb zero (of_int (num_interior_verts_y ny cv - 1)) = true
  /\ (forall mr er i,
      r = S754_finite false mr er -> valid_binary prec emax r = true ->
      (0 <= i < cv)%Z ->
      let sn := sinf (theta cv i) in
      let cs := cosf (theta cv i) in
      valid_binary prec emax sn = true -> valid_binary prec emax cs = true ->
      sn <> nan -> cs <> nan ->
      SFltb half sn = true \/ SFltb half cs = true ->
      let s := r_sin_theta r cv i in
      let c := r_cos_theta r cv i in
      SFltb zero (std_max (fabsf (- s)) (fabsf (- c))) = true
      /\ SFltb zero (std_max (fabsf (- c)) (fabsf s)) = true
      /\ SFltb zero (std_max (fabsf c) (fabsf (- s))) = true
      /\ SFltb zero (std_max (fabsf s) (fabsf c)) = true).
Proof.
  intros Hacc r zero. apply accepted_iff in Hacc. destruct Hacc as (_ & _ & Hc).
  destruct (interior_counts _ _ _ Hc) as (Hnx & Hny & _).
  split; [lia|]. split; [lia|].
  split; [apply nonzero_positive, of_int_positive; lia|].
  split; [apply nonzero_positive, of_int_positive; lia|].
  intros mr er i Er Vr Hi sn cs Vs Vc Ns Nc Hhalf s c.
  assert (Es : s = SFmul prec emax r sn) by reflexivity.
  assert (Ec : c = SFmul prec emax r cs) by reflexivity.
  assert (Hs : s <> nan)
    by (rewrite Es, Er; apply SFmul_finite_number; exact Ns).
  assert (Hcn : c <> nan)
    by (rewrite Ec, Er; apply SFmul_finite_number; exact Nc).
  assert (Hnz : nonzero_with_sign false s \/ nonzero_with_sign false c).
  { destruct Hhalf as [Hh|Hh]; [left; rewrite Es | right; rewrite Ec];
      apply (SFmul_positive r _ mr er); assumption. }
  assert (Hnz' : nonzero_with_sign false c \/ nonzero_with_sign false s)
    by (destruct Hnz; [right | left]; assumption).
  change (- s) with (SFopp s). change (- c) with (SFopp c).
  split; [|split; [|split]].
  - apply (max_abs_positive s c (SFopp s) (SFopp c) false false); auto.
  - apply (max_abs_positive c s (SFopp c) s false false); auto.
  - apply (max_abs_positive c s c (SFopp s) false false); auto.
  - apply (max_abs_positive s c s c false false); auto.
Qed.
End Divisors.

Lemma listed_divisors_nonzero_witness :
  let r := clamp_radius (H := Binary32.poly_ops)
             (Binary32.lit 2 1) (Binary32.lit 2 1) (Binary32.lit 1 2) in
  (1 <= num_interior_verts_x 4 2 - 1)%Z
  /\ SFltb (S754_zero false)
       (std_max (H := Binary32.poly_ops)
          (SFabs (r_sin_theta (H := Binary32.poly_ops) r 2 0))
          (SFabs (r_cos_theta (H := Binary32.poly_ops) r 2 0))) = true.
Proof.
  destruct (listed_divisors_nonzero Binary32.poly_sinf Binary32.poly_cosf
              (Binary32.lit 2 1) (Binary32.lit 2 1) 4 4 (Binary32.lit 1 2) 2
              CornerMask.kAll) as (Hx & _ & _ & _ & Hdiv).
  - apply accepted_iff. repeat split; reflexivity.
  - split; [exact Hx|].
    apply (Hdiv 8388608%positive (-24)%Z 0%Z).
    + vm_compute; reflexivity.
    + vm_compute; reflexivity.
    + lia.
    + vm_compute; reflexivity.
    + vm_compute; reflexivity.
    + vm_compute; discriminate.
    + vm_compute; discriminate.
    + left. vm_compute; reflexivity.
Defined.

(** C10, counterexample.  [size_x = size_y = 0] with a 2 x 2 grid and no
    rounding passes validation; the divisor [size_x] of line 132 is zero,
    [u_texture_inset = 0/0] is NaN, and so is every texture coordinate of the
    result. *)
Lemma size_zero_is_a_zero_divisor :
  let zero := Binary32.lit 0 1 in
  accepted (H := Binary32.poly_ops) zero zero 2 2 zero 0 CornerMask.kAll
  /\ SFeqb zero (S754_zero false) = true
  /\ u_texture_inset (H := Binary32.poly_ops) zero
       (clamp_radius (H := Binary32.poly_ops) zero zero zero) = Binary32.nan
  /\ uv0 <$> CalculateTesselatedQuadVertices (H := Binary32.poly_ops)
               zero zero 2 2 zero 0 CornerMask.kAll
     = replicate 4 (Vec2 Binary32.nan Binary32.nan).
Proof. repeat split. Qed.

(** ** Masking one corner *)

Section MaskOneCorner.
Context {F : Type} `{Scalar F}.
Variables (size_x size_y : F) (num_verts_x num_verts_y : Z).
Variables (corner_radius : F) (corner_verts : Z).

Let layout (mask : CornerMask.t) :=
  quad_vertices size_x size_y num_verts_x num_verts_y corner_radius
    corner_verts mask.

Hypothesis Hcv : 0 < corner_verts.
Hypothesis Hnix : 0 <= num_interior_verts_x num_verts_x corner_verts.
Hypothesis Hniy : 0 <= num_interior_verts_y num_verts_y corner_verts.

(** Before the fans the mask plays no role. *)
Lemma lookup_before_fans mask mask' idx :
  (idx < fan_base num_verts_x num_verts_y corner_verts)%nat ->
  layout mask !! idx = layout mask' !! idx.
Proof.
  intros Hidx. unfold layout.
  rewrite !quad_vertices_rounded by assumption.
  rewrite (fan_base_split num_verts_x num_verts_y corner_verts Hnix Hniy) in Hidx.
  set (L := left_tab_vertices _ _ _ _ _).
  set (C := seqZ 0 _ ≫= column_vertices _ _ _ _ _ _).
  set (R := right_tab_vertices _ _ _ _ _).
  assert (Hlen : (idx < length (L ++ C ++ R))%nat).
  { subst L C R.
    rewrite !length_app, length_left_tab_vertices, length_columns,
      length_right_tab_vertices by assumption. exact Hidx. }
  rewrite !(app_assoc C R), !(app_assoc L (C ++ R)).
  rewrite 2 (lookup_app_l (L ++ C ++ R)) by exact Hlen. reflexivity.
Qed.

(** Clearing the bit of the corner that the fan loop writes in place [k]
    changes entry [k] of each angle step and nothing else. *)
Lemma fan_step_vertices_all_but k corner i j :
  CornerMask.emission_order !! k = Some corner -> j <> k ->
  fan_step_vertices size_x size_y corner_radius corner_verts
    (CornerMask.all_but corner) i !! j
  = fan_step_vertices size_x size_y corner_radius corner_verts
      CornerMask.kAll i !! j.
Proof.
  intros Hk Hj.
  destruct k as [|[|[|[|k]]]]; simpl in Hk; try discriminate;
    injection Hk as <-;
    destruct j as [|[|[|[|j]]]]; try reflexivity; exfalso; apply Hj; reflexivity.
Qed.

Lemma all_but_keeps_layout k corner idx :
  CornerMask.emission_order !! k = Some corner ->
  length (layout (CornerMask.all_but corner)) = length (layout CornerMask.kAll)
  /\ ((forall i, 0 <= i < corner_verts ->
       idx <> (fan_base num_verts_x num_verts_y corner_verts
               + 4 * Z.to_nat i + k)%nat) ->
      layout (CornerMask.all_but corner) !! idx = layout CornerMask.kAll !! idx).
Proof.
  intros Hk. split.
  - unfold layout. rewrite !length_rounded by assumption. reflexivity.
  - intros Hidx.
    set (base := fan_base num_verts_x num_verts_y corner_verts) in *.
    destruct (Nat.lt_ge_cases idx base) as [Hlt|Hge].
    { apply lookup_before_fans. exact Hlt. }
    destruct (Nat.lt_ge_cases idx (base + 4 * Z.to_nat corner_verts)) as [Hin|Hout].
    + set (q := ((idx - base) / 4)%nat). set (j := ((idx - base) mod 4)%nat).
      assert (Hj : (j < 4)%nat) by (apply Nat.mod_upper_bound; lia).
      assert (Hdiv : (idx - base = 4 * q + j)%nat)
        by (apply Nat.div_mod_eq).
      assert (Hq : 0 <= Z.of_nat q < corner_verts) by lia.
      replace idx with (base + 4 * Z.to_nat (Z.of_nat q) + j)%nat
        by (rewrite Nat2Z.id; lia).
      subst base. unfold layout. rewrite !lookup_fan by assumption.
      apply (fan_step_vertices_all_but k); [exact Hk|].
      intros ->. apply (Hidx (Z.of_nat q) Hq). rewrite Nat2Z.id. lia.
    + unfold layout. rewrite !lookup_ge_None_2; [reflexivity| |];
        rewrite length_rounded by assumption; exact Hout.
Qed.
End MaskOneCorner.

(** Clearing one corner's bit in [kAll] leaves the length of the output and
    every vertex outside that corner's fan as they are (any arithmetic). *)
Lemma mask_moves_only_its_fan {F : Type} `{Scalar F}
    (sx sy : F) nx ny (cr : F) cv k corner idx :
  accepted sx sy nx ny cr cv CornerMask.kAll -> 0 < cv ->
  CornerMask.emission_order !! k = Some corner ->
  let masked :=
    CalculateTesselatedQuadVertices sx sy nx ny cr cv (CornerMask.all_but corner) in
  let rounded :=
    CalculateTesselatedQuadVertices sx sy nx ny cr cv CornerMask.kAll in
  length masked = length rounded
  /\ ((forall i, 0 <= i < cv ->
       idx <> (fan_base nx ny cv + 4 * Z.to_nat i + k)%nat) ->
      masked !! idx = rounded !! idx).
Proof.
  intros Hacc Hcv Hk masked rounded. subst masked rounded.
  assert (Hacc' : accepted sx sy nx ny cr cv (CornerMask.all_but corner))
    by (apply accepted_iff; apply accepted_iff in Hacc; exact Hacc).
  rewrite (CalculateTesselatedQuadVertices_layout _ _ _ _ _ _ _ Hacc).
  rewrite (CalculateTesselatedQuadVertices_layout _ _ _ _ _ _ _ Hacc').
  apply accepted_iff in Hacc. destruct Hacc as (_ & _ & Hc).
  destruct (interior_counts _ _ _ Hc) as (Hnx & Hny & _).
  apply all_but_keeps_layout; (assumption || lia).
Qed.

(** ** The corner-mask operators (mesh.h lines 32-48) *)

Section CornerMaskLaws.

Lemma to_uint32_range a : 0 <= CornerMask.to_uint32 a < 2 ^ 32.
Proof. unfold CornerMask.to_uint32. apply Z.mod_pos_bound. lia. Qed.

Lemma to_uint32_bits a i :
  Z.testbit (CornerMask.to_uint32 a) i = (i <? 32) && Z.testbit a i.
Proof. unfold CornerMask.to_uint32. apply Z.testbit_mod_pow2. lia. Qed.

(** The two casts undo each other. *)
Lemma to_of_uint32 u :
  0 <= u < 2 ^ 32 -> CornerMask.to_uint32 (CornerMask.of_uint32 u) = u.
Proof.
  intros Hu. unfold CornerMask.to_uint32, CornerMask.of_uint32.
  rewrite wrap_mod. apply Z.mod_small. exact Hu.
Qed.

Lemma of_to_uint32 a :
  Int32.in_range a -> CornerMask.of_uint32 (CornerMask.to_uint32 a) = a.
Proof.
  intros Ha. unfold CornerMask.to_uint32, CornerMask.of_uint32.
  symmetry. apply (wrap_unique a _ (a / 2 ^ 32)); [exact Ha|].
  pose proof (Z.div_mod a (2 ^ 32) ltac:(lia)). lia.
Qed.

Lemma lor_uint32 a b :
  0 <= Z.lor (CornerMask.to_uint32 a) (CornerMask.to_uint32 b) < 2 ^ 32.
Proof.
  pose proof (to_uint32_range a). pose proof (to_uint32_range b).
  assert (Hnn : 0 <= Z.lor (CornerMask.to_uint32 a) (CornerMask.to_uint32 b))
    by (apply Z.lor_nonneg; lia).
  apply Z.bounded_iff_bits_nonneg'; [lia | exact Hnn |].
  intros l Hl. rewrite Z.lor_spec, !to_uint32_bits.
  destruct (Z.ltb_spec l 32); [lia | reflexivity].
Qed.

Lemma land_uint32 a b :
  0 <= Z.land (CornerMask.to_uint32 a) (CornerMask.to_uint32 b) < 2 ^ 32.
Proof.
  pose proof (to_uint32_range a). pose proof (to_uint32_range b).
  assert (Hnn : 0 <= Z.land (CornerMask.to_uint32 a) (CornerMask.to_uint32 b))
    by (apply Z.land_nonneg; lia).
  apply Z.bounded_iff_bits_nonneg'; [lia | exact Hnn |].
  intros l Hl. rewrite Z.land_spec, !to_uint32_bits.
  destruct (Z.ltb_spec l 32); [lia | reflexivity].
Qed.

Lemma to_uint32_or a b :
  CornerMask.to_uint32 (CornerMask.or a b)
  = Z.lor (CornerMask.to_uint32 a) (CornerMask.to_uint32 b).
Proof. apply to_of_uint32, lor_uint32. Qed.

Lemma to_uint32_and a b :
  CornerMask.to_uint32 (CornerMask.and a b)
  = Z.land (CornerMask.to_uint32 a) (CornerMask.to_uint32 b).
Proof. apply to_of_uint32, land_uint32. Qed.

Lemma or_bits a b i :
  0 <= i < 32 ->
  Z.testbit (CornerMask.or a b) i = Z.testbit a i || Z.testbit b i.
Proof.
  intros Hi. unfold CornerMask.or, CornerMask.of_uint32.
  rewrite wrap_bits, Z.lor_spec, !to_uint32_bits by lia.
  destruct (Z.ltb_spec i 32); [reflexivity | lia].
Qed.

Lemma and_bits a b i :
  0 <= i < 32 ->
  Z.testbit (CornerMask.and a b) i = Z.testbit a i && Z.testbit b i.
Proof.
  intros Hi. unfold CornerMask.and, CornerMask.of_uint32.
  rewrite wrap_bits, Z.land_spec, !to_uint32_bits by lia.
  destruct (Z.ltb_spec i 32); [reflexivity | lia].
Qed.

(** X1.  [operator|] and [operator&] return a [CornerMask], that is, an
    [int]; they are commutative and associative, [&] distributes over [|],
    [kNone] is absorbing for [&], and [& kAll] keeps exactly the four corner
    bits.  On every [CornerMask] value [kNone] is neutral for [|], and both
    operators are idempotent. *)
Theorem corner_mask_operator_laws (a b c : CornerMask.t) :
  (Int32.in_range (CornerMask.or a b) /\ Int32.in_range (CornerMask.and a b))
  /\ CornerMask.or a b = CornerMask.or b a
  /\ CornerMask.and a b = CornerMask.and b a
  /\ CornerMask.or (CornerMask.or a b) c = CornerMask.or a (CornerMask.or b c)
  /\ CornerMask.and (CornerMask.and a b) c = CornerMask.and a (CornerMask.and b c)
  /\ CornerMask.and a (CornerMask.or b c)
     = CornerMask.or (CornerMask.and a b) (CornerMask.and a c)
  /\ CornerMask.and a CornerMask.kNone = CornerMask.kNone
  /\ CornerMask.and a CornerMask.kAll = a mod 16
  /\ (Int32.in_range a ->
      CornerMask.or a CornerMask.kNone = a
      /\ CornerMask.or CornerMask.kNone a = a
      /\ CornerMask.or a a = a
      /\ CornerMask.and a a = a).
Proof.
  split; [split; apply wrap_range|].
  split; [unfold CornerMask.or; rewrite Z.lor_comm; reflexivity|].
  split; [unfold CornerMask.and; rewrite Z.land_comm; reflexivity|].
  split; [|split; [|split; [|split; [|split]]]].
  - unfold CornerMask.or at 1 3. rewrite !to_uint32_or, Z.lor_assoc.
    reflexivity.
  - unfold CornerMask.and at 1 3. rewrite !to_uint32_and, Z.land_assoc.
    reflexivity.
  - unfold CornerMask.and at 1. unfold CornerMask.or at 2.
    rewrite to_uint32_or, !to_uint32_and, Z.land_lor_distr_r. reflexivity.
  - unfold CornerMask.and. rewrite Z.land_0_r. reflexivity.
  - unfold CornerMask.and, CornerMask.of_uint32.
    change (CornerMask.to_uint32 CornerMask.kAll) with (Z.ones 4).
    rewrite Z.land_ones by lia. unfold CornerMask.to_uint32.
    change (2 ^ 4) with 16.
    rewrite (Z.mod_mod_divide a (2 ^ 32) 16) by (exists (2 ^ 28); reflexivity).
    apply wrap_small. pose proof (Z.mod_pos_bound a 16 ltac:(lia)).
    unfold Int32.in_range, Int32.min_int, Int32.max_int. lia.
  - intros Ha. unfold CornerMask.or, CornerMask.and.
    change (CornerMask.to_uint32 CornerMask.kNone) with 0.
    rewrite Z.lor_0_r, Z.lor_0_l, Z.lor_diag, Z.land_diag.
    rewrite !of_to_uint32 by exact Ha. repeat split.
Qed.

(** The test [(mask & corner) == kNone] of the fan loop reads one bit. *)
Lemma corner_off_testbit (mask : CornerMask.t) (k : Z) :
  0 <= k < 32 ->
  corner_off mask (Z.shiftl 1 k) = negb (Z.testbit mask k).
Proof.
  intros Hk. unfold corner_off, CornerMask.kNone.
  rewrite Z.shiftl_1_l.
  destruct (Z.eqb_spec (CornerMask.and mask (2 ^ k)) 0) as [E|E].
  - pose proof (and_bits mask (2 ^ k) k Hk) as Hb.
    rewrite E, Z.bits_0, Z.pow2_bits_true, andb_true_r in Hb by lia.
    rewrite <- Hb. reflexivity.
  - destruct (Z.testbit mask k) eqn:Hb; [reflexivity|].
    exfalso. apply E. unfold CornerMask.and, CornerMask.of_uint32.
    apply wrap_zero; [apply land_uint32|].
    apply Z.bits_inj'. intros i Hi.
    rewrite Z.land_spec, !to_uint32_bits, Z.bits_0, Z.pow2_bits_eqb by lia.
    destruct (Z.eqb_spec k i) as [<-|_].
    + rewrite Hb, !andb_false_r. reflexivity.
    + rewrite !andb_false_r. reflexivity.
Qed.

(** Each enumerator of a single corner is one of the bits 0 to 3. *)
Lemma corner_is_bit corner :
  In corner CornerMask.emission_order ->
  exists k, 0 <= k < 4 /\ corner = Z.shiftl 1 k.
Proof.
  intros [<-|[<-|[<-|[<-|[]]]]];
    [exists 2 | exists 3 | exists 1 | exists 0]; split; (lia || reflexivity).
Qed.

(** X2.  For each of the four corners, the test that the fan loop makes on
    a combined mask is the combination of the tests on its parts: the corner
    is switched off in [a | b] when it is off in both, and in [a & b] when it
    is off in one of them.  [kNone] switches every corner off, [kAll] none,
    and a single-corner mask exactly the three other corners. *)
Theorem corner_test_of_combined_masks (a b corner : CornerMask.t) :
  In corner CornerMask.emission_order ->
  corner_off (CornerMask.or a b) corner = corner_off a corner && corner_off b corner
  /\ corner_off (CornerMask.and a b) corner
     = corner_off a corner || corner_off b corner
  /\ corner_off CornerMask.kNone corner = true
  /\ corner_off CornerMask.kAll corner = false
  /\ (forall other, In other CornerMask.emission_order ->
      corner_off other corner = negb (other =? corner)).
Proof.
  intros Hin. destruct (corner_is_bit corner Hin) as (k & Hk & ->).
  rewrite !corner_off_testbit by lia.
  rewrite or_bits, and_bits by lia.
  split; [apply negb_orb|]. split; [apply negb_andb|].
  split; [rewrite Z.bits_0; reflexivity|].
  split.
  - assert (k = 0 \/ k = 1 \/ k = 2 \/ k = 3) as [->|[->|[->| ->]]] by lia;
      reflexivity.
  - intros other Ho.
    assert (k = 0 \/ k = 1 \/ k = 2 \/ k = 3) as [->|[->|[->| ->]]] by lia;
      destruct Ho as [<-|[<-|[<-|[<-|[]]]]]; reflexivity.
Qed.
End CornerMaskLaws.

Lemma corner_test_of_combined_masks_witness :
  corner_off (CornerMask.or CornerMask.kTopLeft CornerMask.kTopRight)
    CornerMask.kBottomLeft = true
  /\ corner_off (CornerMask.or CornerMask.kTopLeft CornerMask.kBottomLeft)
       CornerMask.kBottomLeft = false.
Proof.
  split.
  - destruct (corner_test_of_combined_masks CornerMask.kTopLeft
                CornerMask.kTopRight CornerMask.kBottomLeft) as (-> & _);
      [left; reflexivity | reflexivity].
  - destruct (corner_test_of_combined_masks CornerMask.kTopLeft
                CornerMask.kBottomLeft CornerMask.kBottomLeft) as (-> & _);
      [left; reflexivity | reflexivity].
Defined.

(** ** What the mask can and cannot change *)

Section MaskScope.
Context {F : Type} `{Scalar F}.

Lemma bind_ext {A B} (f g : A -> list B) (l : list A) :
  (forall a, f a = g a) -> l ≫= f = l ≫= g.
Proof.
  intros Hfg. induction l as [|a l IH]; [reflexivity|].
  rewrite !bind_cons, Hfg, IH. reflexivity.
Qed.

(** Validation does not look at the mask: either every mask is accepted, or
    the result is empty for every mask. *)
Lemma output_cases sx sy nx ny cr cv :
  (check_vertex_counts nx ny cv = None
   /\ forall mask, accepted sx sy nx ny cr cv mask)
  \/ (forall mask, CalculateTesselatedQuadVertices sx sy nx ny cr cv mask = []).
Proof.
  unfold accepted, CalculateTesselatedQuadVertices,
    CalculateTesselatedQuadVertices_log.
  destruct ((sx <? f0)%flt || (sy <? f0)%flt); [right; reflexivity|].
  destruct (check_vertex_counts nx ny cv); [right; reflexivity|].
  left. split; reflexivity.
Qed.

Lemma quad_vertices_mask_agree sx sy nx ny (r : F) cv mask mask' :
  (forall corner, In corner CornerMask.emission_order ->
     corner_off mask corner = corner_off mask' corner) ->
  quad_vertices sx sy nx ny r cv mask = quad_vertices sx sy nx ny r cv mask'.
Proof.
  intros Hag. unfold quad_vertices. do 2 f_equal.
  destruct (0 <? cv); [|reflexivity]. f_equal.
  apply bind_ext. intros i.
  unfold fan_step_vertices, ll_offset, ul_offset, lr_offset, ur_offset.
  rewrite (Hag CornerMask.kBottomLeft), (Hag CornerMask.kTopLeft),
    (Hag CornerMask.kBottomRight), (Hag CornerMask.kTopRight);
    simpl; auto 6.
Qed.

Lemma output_mask_agree sx sy nx ny (cr : F) cv mask mask' :
  (forall corner, In corner CornerMask.emission_order ->
     corner_off mask corner = corner_off mask' corner) ->
  CalculateTesselatedQuadVertices sx sy nx ny cr cv mask
  = CalculateTesselatedQuadVertices sx sy nx ny cr cv mask'.
Proof.
  intros Hag.
  destruct (output_cases sx sy nx ny cr cv) as [(_ & Hacc)|Hnil].
  - rewrite !CalculateTesselatedQuadVertices_layout by apply Hacc.
    apply quad_vertices_mask_agree, Hag.
  - rewrite !Hnil. reflexivity.
Qed.

(** X3.  Of the mask only the four corner bits are read: two masks that
    agree modulo 16 give the same vertices, for every input and every float
    arithmetic. *)
Theorem only_corner_bits_matter sx sy nx ny (cr : F) cv mask mask' :
  mask mod 16 = mask' mod 16 ->
  CalculateTesselatedQuadVertices sx sy nx ny cr cv mask
  = CalculateTesselatedQuadVertices sx sy nx ny cr cv mask'.
Proof.
  intros Hmod. apply output_mask_agree. intros corner Hin.
  destruct (corner_is_bit corner Hin) as (k & Hk & ->).
  rewrite !corner_off_testbit by lia. f_equal.
  rewrite <- (Z.mod_pow2_bits_low mask 4 k), <- (Z.mod_pow2_bits_low mask' 4 k)
    by lia.
  change (2 ^ 4) with 16. rewrite Hmod. reflexivity.
Qed.

(** X4.  The mask changes neither the number of vertices nor any vertex in
    front of the fans, and without fans ([corner_verts = 0]) it changes
    nothing at all. *)
Theorem mask_affects_only_fans sx sy nx ny (cr : F) cv mask mask' :
  length (CalculateTesselatedQuadVertices sx sy nx ny cr cv mask)
  = length (CalculateTesselatedQuadVertices sx sy nx ny cr cv mask')
  /\ (cv = 0 ->
      CalculateTesselatedQuadVertices sx sy nx ny cr cv mask
      = CalculateTesselatedQuadVertices sx sy nx ny cr cv mask')
  /\ (0 < cv -> forall idx, (idx < fan_base nx ny cv)%nat ->
      CalculateTesselatedQuadVertices sx sy nx ny cr cv mask !! idx
      = CalculateTesselatedQuadVertices sx sy nx ny cr cv mask' !! idx).
Proof.
  destruct (output_cases sx sy nx ny cr cv) as [(Hc & Hacc)|Hnil].
  - destruct (interior_counts _ _ _ Hc) as (Hnx & Hny & Hcv).
    split; [|split].
    + rewrite !accepted_length by apply Hacc. reflexivity.
    + intros ->. rewrite !CalculateTesselatedQuadVertices_layout by apply Hacc.
      reflexivity.
    + intros Hpos idx Hidx.
      rewrite !CalculateTesselatedQuadVertices_layout by apply Hacc.
      apply lookup_before_fans; (assumption || lia).
  - rewrite !Hnil. repeat split; reflexivity.
Qed.

(** X6.  The quad is flat: every vertex of every result has [z = 0.f]. *)
Theorem output_is_flat sx sy nx ny (cr : F) cv mask :
  Forall (fun v => pz (pos v) = f0)
    (CalculateTesselatedQuadVertices sx sy nx ny cr cv mask).
Proof.
  destruct (output_cases sx sy nx ny cr cv) as [(_ & Hacc)|Hnil];
    [|rewrite Hnil; constructor].
  rewrite CalculateTesselatedQuadVertices_layout by apply Hacc.
  unfold quad_vertices, left_tab_vertices, right_tab_vertices.
  assert (Hcols : forall l,
            Forall (fun v => pz (pos v) = f0)
              (l ≫= column_vertices sx sy nx ny (clamp_radius sx sy cr) cv)).
  { intros l. apply Forall_bind, Forall_true. intros x.
    unfold column_vertices. repeat apply Forall_app_2.
    - destruct (0 <? cv); repeat constructor.
    - apply Forall_fmap, Forall_true. intros y. reflexivity.
    - destruct (0 <? cv); repeat constructor. }
  destruct (0 <? cv).
  - repeat apply Forall_app_2; [| apply Hcols | |].
    + apply Forall_fmap, Forall_true. intros y. reflexivity.
    + apply Forall_fmap, Forall_true. intros y. reflexivity.
    + apply Forall_bind, Forall_true. intros i.
      unfold fan_step_vertices. repeat constructor.
  - rewrite app_nil_r. apply Hcols.
Qed.
End MaskScope.

Lemma only_corner_bits_matter_witness :
  CalculateTesselatedQuadVertices (H := Binary32.poly_ops)
    (Binary32.lit 2 1) (Binary32.lit 2 1) 4 4 (Binary32.lit 3 10) 4 (-1)
  = CalculateTesselatedQuadVertices (H := Binary32.poly_ops)
      (Binary32.lit 2 1) (Binary32.lit 2 1) 4 4 (Binary32.lit 3 10) 4
      CornerMask.kAll.
Proof.
  apply (only_corner_bits_matter (H := Binary32.poly_ops)
           (Binary32.lit 2 1) (Binary32.lit 2 1) 4 4 (Binary32.lit 3 10) 4
           (-1) CornerMask.kAll).
  reflexivity.
Defined.

(** ** Where the grid and the tabs sit in the output *)

Section TabLayout.
Context {F : Type} `{Scalar F}.
Variables (size_x size_y : F) (num_verts_x num_verts_y : Z).
Variables (corner_radius : F) (corner_verts : Z) (corner_mask : CornerMask.t).

Let niy := num_interior_verts_y num_verts_y corner_verts.
Let nix := num_interior_verts_x num_verts_x corner_verts.
Let out := quad_vertices size_x size_y num_verts_x num_verts_y corner_radius
             corner_verts corner_mask.

Hypothesis Hcv : 0 < corner_verts.
Hypothesis Hnix : 0 <= nix.
Hypothesis Hniy : 0 <= niy.






End TabLayout.

Section Addressing.
Context {F : Type} `{Scalar F}.
Local Open Scope float_scope.


End Addressing.



(** ** NaN sizes and the order of binary32 *)

Section Binary32Order.
Import Binary32 Binary32Facts.



Lemma SFcompare_antisym (a b : float) :
  SFcompare b a = option_map CompOpp (SFcompare a b).
Proof.
  destruct a as [sa|sa| |sa ma ea], b as [sb|sb| |sb mb eb]; simpl;
    try reflexivity;
    try solve [destruct sa; reflexivity];
    try solve [destruct sb; reflexivity];
    try solve [destruct sa, sb; reflexivity].
  destruct sa, sb; try reflexivity;
    rewrite (Z.compare_antisym ea eb);
    destruct (ea ?= eb); simpl; try reflexivity;
    rewrite (Pos.compare_cont_antisym ma mb Eq); simpl;
    rewrite ?CompOpp_involutive; reflexivity.
Qed.

(** [operator<] on floats is asymmetric. *)
Lemma SFltb_asym (a b : float) : SFltb a b = true -> SFltb b a = false.
Proof.
  unfold SFltb. rewrite (SFcompare_antisym a b).
  destruct (SFcompare a b) as [[]|]; simpl; (discriminate || reflexivity).
Qed.
End Binary32Order.

Section NaNInputs.
Import Binary32 Binary32Facts.
Variables libm_sinf libm_cosf : float -> float.
Let b32 : Scalar float := ops libm_sinf libm_cosf.
Existing Instance b32.




(** X17.  The clamp of line 77 never enlarges the radius: in binary32 the
    radius in use is never greater than the requested one, and never greater
    than [min(size_x, size_y) / 2], whatever the arguments (NaN and the
    infinities included). *)
Theorem clamp_never_enlarges (sx sy cr : float) :
  SFltb cr (clamp_radius sx sy cr) = false
  /\ SFltb (fdiv (std_min sx sy) f2) (clamp_radius sx sy cr) = false.
Proof.
  unfold clamp_radius.
  set (cap := fdiv (std_min sx sy) f2).
  unfold std_min. change (flt cap cr) with (SFltb cap cr).
  destruct (SFltb cap cr) eqn:E.
  - split; [apply SFltb_asym; exact E | apply SFltb_irrefl].
  - split; [apply SFltb_irrefl | exact E].
Qed.
End NaNInputs.


(** ** The messages of validation *)

Section Diagnostics.
Context {F : Type} `{Scalar F}.
Local Open Scope float_scope.

(** X18.  Which failure is reported: a negative size is reported as such
    even when the vertex counts are wrong as well; with sizes that pass, a
    negative [corner_verts] is reported as such whatever the vertex counts,
    and too few vertices are reported with the number of vertices that the
    mode reserves (2 without fans, 4 with fans). *)
Theorem validation_messages sx sy nx ny (cr : F) cv mask :
  let log := fst (CalculateTesselatedQuadVertices_log sx sy nx ny cr cv mask) in
  ((sx <? f0) = true \/ (sy <? f0) = true ->
   log = Some "Size of quad has to be >= than 0.0"%string)
  /\ ((sx <? f0) = false -> (sy <? f0) = false ->
      ((cv < 0)%Z -> log = Some "Must have >= 0 corner vertices."%string)
      /\ (cv = 0%Z -> (nx < 2 \/ ny < 2)%Z ->
          log = Some "Failed to reserve 2 additional vertices."%string)
      /\ ((0 < cv)%Z -> (nx < 4 \/ ny < 4)%Z ->
          log = Some "Failed to reserve 4 additional vertices."%string)).
Proof.
  intros log. subst log. unfold CalculateTesselatedQuadVertices_log. split.
  - intros [-> | ->]; [reflexivity|]. rewrite orb_true_r. reflexivity.
  - intros -> ->. simpl. unfold check_vertex_counts.
    split; [|split].
    + intros Hcv. destruct (Z.ltb_spec 0 cv); [lia|].
      destruct (Z.eqb_spec cv 0); [lia | reflexivity].
    + intros -> Hn. simpl.
      destruct (Z.ltb_spec nx 2), (Z.ltb_spec ny 2); simpl;
        (reflexivity || lia).
    + intros Hcv Hn. destruct (Z.ltb_spec 0 cv); [|lia].
      destruct (Z.ltb_spec nx 4), (Z.ltb_spec ny 4); simpl;
        (reflexivity || lia).
Qed.
End Diagnostics.

Lemma validation_messages_witness :
  fst (CalculateTesselatedQuadVertices_log (H := Binary32.poly_ops)
         (Binary32.lit (-1) 1) (Binary32.lit 2 1) 1 1 (Binary32.lit 0 1) (-3)
         CornerMask.kAll)
  = Some "Size of quad has to be >= than 0.0"%string
  /\ fst (CalculateTesselatedQuadVertices_log (H := Binary32.poly_ops)
            (Binary32.lit 2 1) (Binary32.lit 2 1) 1 1 (Binary32.lit 0 1) (-3)
            CornerMask.kAll)
     = Some "Must have >= 0 corner vertices."%string.
Proof.
  split.
  - apply (validation_messages (H := Binary32.poly_ops)
             (Binary32.lit (-1) 1) (Binary32.lit 2 1) 1 1 (Binary32.lit 0 1)
             (-3) CornerMask.kAll).
    left. reflexivity.
  - apply (validation_messages (H := Binary32.poly_ops)
             (Binary32.lit 2 1) (Binary32.lit 2 1) 1 1 (Binary32.lit 0 1)
             (-3) CornerMask.kAll); [reflexivity | reflexivity | lia].
Defined.

Lemma mask_affects_only_fans_witness :
  CalculateTesselatedQuadVertices (H := Binary32.poly_ops)
    (Binary32.lit 2 1) (Binary32.lit 2 1) 4 4 (Binary32.lit 3 10) 4
    CornerMask.kNone !! 7%nat
  = CalculateTesselatedQuadVertices (H := Binary32.poly_ops)
      (Binary32.lit 2 1) (Binary32.lit 2 1) 4 4 (Binary32.lit 3 10) 4
      CornerMask.kAll !! 7%nat.
Proof.
  destruct (mask_affects_only_fans (H := Binary32.poly_ops)
              (Binary32.lit 2 1) (Binary32.lit 2 1) 4 4 (Binary32.lit 3 10) 4
              CornerMask.kNone CornerMask.kAll) as (_ & _ & Hfront).
  apply Hfront; [lia | vm_compute; lia].
Defined.
